(** * Connect Four: the rack, the win detector and the minimax player

    A shallow embedding of [connect4.py] (rack primitives, [place_disc],
    [find_win]) and of [connect4player.py] ([ComputerPlayer]: the evaluator,
    plain minimax, minimax with alpha-beta pruning and [pick_move]).

    Python integers are [Z]; loop indices produced by [range] are [nat].
    A rack is a list of columns, each column a list of cells from the bottom
    row up; a cell is 0 (unowned), 1 or 2.  Indexing out of range raises
    [IndexError] as in Python; the only negative index the player uses is
    [-1] (the top cell of a column). *)

From Stdlib Require Import ZArith Lia.
From Stdlib Require Strings.String.
Import Strings.String.StringSyntax.
Delimit Scope string_scope with string.
From stdpp Require Import base numbers list.

Local Open Scope Z_scope.

(** ** Exceptions and the two monads *)

Inductive exn : Type :=
  | IndexError
  | TypeError
  | AssertionError
  | RecursionError
  | Exception_ (msg : String.string).

Inductive res (A : Type) : Type :=
  | Ok (a : A)
  | Raise (e : exn).
Arguments Ok {A} a.
Arguments Raise {A} e.

Definition res_bind {A B} (m : res A) (k : A -> res B) : res B :=
  match m with
  | Ok a => k a
  | Raise e => Raise e
  end.

Definition res_map {A B} (f : A -> B) (m : res A) : res B :=
  match m with
  | Ok a => Ok (f a)
  | Raise e => Raise e
  end.

Notation "'let?' x ':=' m 'in' k" := (res_bind m (fun x => k))
  (at level 10, x name, m at level 100, k at level 200, only parsing).
Notation "'let?' ' x ':=' m 'in' k" := (res_bind m (fun x => k))
  (at level 10, x pattern, m at level 100, k at level 200, only parsing).

(** The rack: the list of its columns. *)
Abbreviation Rack := (list (list Z)).

(** Code that writes to the board: the board is the state, and an exception
    leaves the board as it was when the exception was raised. *)
Definition M (A : Type) : Type := Rack -> res A * Rack.

Definition ret {A} (a : A) : M A := fun b => (Ok a, b).

Definition bind {A B} (m : M A) (k : A -> M B) : M B :=
  fun b =>
    match m b with
    | (Ok a, b') => k a b'
    | (Raise e, b') => (Raise e, b')
    end.

(** Reading the board with a function that does not write to it. *)
Definition read {A} (f : Rack -> res A) : M A := fun b => (f b, b).

Notation "'let*' x ':=' m 'in' k" := (bind m (fun x => k))
  (at level 10, x name, m at level 100, k at level 200, only parsing).

(** ** List indexing as Python does it *)

(** [l[i]] for an index [i >= 0]. *)
Definition py_get {A} (l : list A) (i : nat) : res A :=
  match l !! i with
  | Some x => Ok x
  | None => Raise IndexError
  end.

(** [l[-1]]. *)
Definition py_last {A} (l : list A) : res A :=
  match last l with
  | Some x => Ok x
  | None => Raise IndexError
  end.

(** [rack[c][r]] *)
Definition cell (rack : Rack) (c r : nat) : res Z :=
  let? col := py_get rack c in py_get col r.

(** [rack[c][-1]] *)
Definition top_cell (rack : Rack) (c : nat) : res Z :=
  let? col := py_get rack c in py_last col.

(** [board[c][r] = v] *)
Definition set_cell (c r : nat) (v : Z) : M unit :=
  fun board =>
    match board !! c with
    | Some col =>
        if decide (r < length col)%nat
        then (Ok tt, <[c := <[r := v]> col]> board)
        else (Raise IndexError, board)
    | None => (Raise IndexError, board)
    end.

(** [for i in idxs: acc = body(i, acc)] *)
Fixpoint for_range {S} (idxs : list nat) (body : nat -> S -> res S) (acc : S) : res S :=
  match idxs with
  | [] => Ok acc
  | i :: rest => let? acc' := body i acc in for_range rest body acc'
  end.

(** ** connect4player.py: ComputerPlayer *)

Definition _flip_player (id : Z) : Z := 3 - id.

(** The loop of [_find_top_spot_open]; falling out of it raises. *)
Fixpoint first_open (col : list Z) (idxs : list nat) : res nat :=
  match idxs with
  | [] => Raise (Exception_ "Collumn Full"%string)
  | i :: rest =>
      let? v := py_get col i in
      if v =? 0 then Ok i else first_open col rest
  end.

Definition _find_top_spot_open (board : Rack) (collumn : nat) : res nat :=
  let? col := py_get board collumn in
  first_open col (seq 0 (length col)).

Fixpoint _is_tie (board : Rack) : res bool :=
  match board with
  | [] => Ok true
  | collumn :: rest =>
      let? v := py_last collumn in
      if v =? 0 then Ok false else _is_tie rest
  end.

(** The counting loop of [_score_list]. *)
Fixpoint count_cells (rack : Rack) (positions : list (nat * nat)) (num_One num_Two : Z)
  : res (Z * Z) :=
  match positions with
  | [] => Ok (num_One, num_Two)
  | pos :: rest =>
      let? v := cell rack pos.1 pos.2 in
      let num_One := if v =? 1 then num_One + 1 else num_One in
      let num_Two := if v =? 2 then num_Two + 1 else num_Two in
      count_cells rack rest num_One num_Two
  end.

(** [_score_list] has no [return] after its last [if]: it then yields
    Python's [None], here [Ok None]. *)
Definition _score_list (id : Z) (rack : Rack) (positions : list (nat * nat))
  : res (option Z) :=
  if negb (length positions =? 4)%nat then Raise AssertionError else
  let? '(num_One, num_Two) := count_cells rack positions 0 0 in
  if (num_Two >? 0) && (num_One >? 0) then Ok (Some 0) else
  if (num_Two =? 0) && (num_One =? 0) then Ok (Some 0) else
  let num_two_higher := num_Two >? num_One in
  let score := Z.max num_One num_Two in
  let winning_id_is_id :=
    (num_two_higher && (id =? 2)) || (negb num_two_higher && (id =? 1)) in
  let sign := if winning_id_is_id then 1 else -1 in
  if score =? 1 then Ok (Some (1 * sign)) else
  if score =? 2 then Ok (Some (10 * sign)) else
  if score =? 3 then Ok (Some (100 * sign)) else
  if score =? 4 then Ok (Some (10000000 * sign)) else
  Ok None.

(** [score += s]: adding [None] to an integer is a [TypeError]. *)
Definition add_score (score : Z) (s : option Z) : res Z :=
  match s with
  | Some n => Ok (score + n)
  | None => Raise TypeError
  end.

Definition score_window (id : Z) (rack : Rack) (pos : list (nat * nat)) (score : Z) : res Z :=
  let? s := _score_list id rack pos in add_score score s.

Definition _eval_function (id : Z) (rack : Rack) : res Z :=
  let score := 0 in
  (* up and down *)
  let? score := for_range (seq 0 (length rack)) (fun i score =>
    let? col := py_get rack i in
    for_range (seq 0 (length col - 3)) (fun j score =>
      score_window id rack [(i, j); (i, j+1); (i, j+2); (i, j+3)]%nat score) score) score in
  (* sideways *)
  let? score := for_range (seq 0 (length rack - 3)) (fun i score =>
    let? col := py_get rack i in
    for_range (seq 0 (length col)) (fun j score =>
      score_window id rack [(i, j); (i+1, j); (i+2, j); (i+3, j)]%nat score) score) score in
  (* diagonal North east *)
  let? score := for_range (seq 0 (length rack - 3)) (fun i score =>
    let? col := py_get rack i in
    for_range (seq 0 (length col - 3)) (fun j score =>
      score_window id rack [(i, j); (i+1, j+1); (i+2, j+2); (i+3, j+3)]%nat score) score) score in
  (* diagonal North West *)
  let? score := for_range (seq 0 (length rack - 3)) (fun i score =>
    let? col := py_get rack i in
    for_range (seq 0 (length col - 3)) (fun j score =>
      score_window id rack [(i, j+3); (i+1, j+2); (i+2, j+1); (i+3, j)]%nat score) score) score in
  if score >? 100000 then Ok 10000000 else
  if score <? -100000 then Ok (-10000000) else
  Ok score.

(** One pass of the column loop of [_minimax]; [rec] is the recursive call
    [self._minimax(self._flip_player(id), board, depth-1)]. *)
Fixpoint minimax_loop (rec : M Z) (id : Z) (cols : list nat) (best_score : Z) : M Z :=
  match cols with
  | [] => ret best_score
  | i :: rest =>
      let* top := read (fun board => top_cell board i) in
      if negb (top =? 0) then minimax_loop rec id rest best_score else
      let* row := read (fun board => _find_top_spot_open board i) in
      let* _ := set_cell i row id in
      let* s := rec in
      let score := s * -1 in
      let best_score := Z.max score best_score in
      let* _ := set_cell i row 0 in
      minimax_loop rec id rest best_score
  end.

(** [_minimax] by recursion on the number of plies left: [depth <= 0] is
    [plies = 0], and [depth - 1] of a positive depth is the predecessor. *)
Fixpoint minimax_plies (plies : nat) (id : Z) : M Z :=
  let* curr_score := read (_eval_function id) in
  match plies with
  | O => ret curr_score
  | S plies' =>
      if curr_score >? 100000 then ret (curr_score - 1) else
      if curr_score <? -100000 then ret (curr_score + 1) else
      let* tie := read _is_tie in
      if tie then ret 0 else
      let* n := read (fun board => Ok (length board)) in
      let* best_score :=
        minimax_loop (minimax_plies plies' (_flip_player id)) id (seq 0 n) (-100000000) in
      if best_score >? 100000 then ret (best_score - 1) else
      if best_score <? -100000 then ret (best_score + 1) else
      ret best_score
  end.

Definition _minimax (id : Z) (depth : Z) : M Z :=
  minimax_plies (Z.to_nat depth) id.

(** The column loop of [_minimax_with_alpha_beta_pruning]; [rec a b] is the
    recursive call with window [(a, b)]. *)
Fixpoint alpha_beta_loop (rec : Z -> Z -> M Z) (id : Z) (cols : list nat)
    (best_score alpha beta : Z) : M Z :=
  match cols with
  | [] => ret best_score
  | i :: rest =>
      let* top := read (fun board => top_cell board i) in
      if negb (top =? 0) then alpha_beta_loop rec id rest best_score alpha beta else
      let* row := read (fun board => _find_top_spot_open board i) in
      let* _ := set_cell i row id in
      let* s := rec (-1 * beta) (-1 * alpha) in
      let score := s * -1 in
      let best_score := Z.max score best_score in
      let alpha := Z.max alpha best_score in
      let* _ := set_cell i row 0 in
      if alpha >=? beta then ret best_score
      else alpha_beta_loop rec id rest best_score alpha beta
  end.

Fixpoint alpha_beta_plies (plies : nat) (id : Z) (alpha beta : Z) : M Z :=
  let* curr_score := read (_eval_function id) in
  match plies with
  | O => ret curr_score
  | S plies' =>
      if curr_score >? 100000 then ret (curr_score - 1) else
      if curr_score <? -100000 then ret (curr_score + 1) else
      let* tie := read _is_tie in
      if tie then ret 0 else
      let* n := read (fun board => Ok (length board)) in
      let* best_score :=
        alpha_beta_loop (alpha_beta_plies plies' (_flip_player id)) id (seq 0 n)
          (-100000000) alpha beta in
      if best_score >? 100000 then ret (best_score - 1) else
      if best_score <? -100000 then ret (best_score + 1) else
      ret best_score
  end.

Definition _minimax_with_alpha_beta_pruning (id : Z) (depth : Z) (alpha beta : Z) : M Z :=
  alpha_beta_plies (Z.to_nat depth) id alpha beta.

(** The first loop of [pick_move]: the state is [imaginary_board], while
    [rack] is the argument, which the loop only reads. *)
Fixpoint score_moves (id difficulty_level : Z) (rack : Rack) (cols : list nat)
    (scores : list (option Z)) : M (list (option Z)) :=
  match cols with
  | [] => ret scores
  | i :: rest =>
      let* top := read (fun imaginary_board => top_cell imaginary_board i) in
      if negb (top =? 0)
      then score_moves id difficulty_level rack rest (scores ++ [None]) else
      let* top_open_spot := read (fun _ => _find_top_spot_open rack i) in
      let* _ := set_cell i top_open_spot id in
      let* s := _minimax_with_alpha_beta_pruning (_flip_player id)
                  (difficulty_level - 1) (-100000000) 100000000 in
      let score := s * -1 in
      let scores := scores ++ [Some score] in
      let* _ := set_cell i top_open_spot 0 in
      score_moves id difficulty_level rack rest scores
  end.

(** The second loop of [pick_move]. *)
Fixpoint best_of (scores : list (option Z)) (idxs : list nat)
    (best_score : Z) (best_collumns : list nat) : res (list nat) :=
  match idxs with
  | [] => Ok best_collumns
  | i :: rest =>
      let? s := py_get scores i in
      match s with
      | None => best_of scores rest best_score best_collumns
      | Some sc =>
          let '(best_score, best_collumns) :=
            if best_score <? sc then (sc, []) else (best_score, best_collumns) in
          let best_collumns :=
            if best_score =? sc then best_collumns ++ [i] else best_collumns in
          best_of scores rest best_score best_collumns
      end
  end.

(** [random.choice(l)]: [draw] is what the generator yields; the element at
    an index below [len(l)] is returned, and an empty [l] raises. *)
Definition random_choice (draw : nat) (l : list nat) : res nat :=
  match l with
  | [] => Raise IndexError
  | _ => py_get l (draw mod length l)%nat
  end.

(** [pick_move] together with the final value of [imaginary_board]. *)
Definition pick_move_run (id difficulty_level : Z) (draw : nat) (rack : Rack)
  : res nat * Rack :=
  let imaginary_board := rack in
  (let* scores := score_moves id difficulty_level rack (seq 0 (length rack)) [] in
   read (fun _ =>
     let? best_collumns := best_of scores (seq 0 (length scores)) (-100000000) [] in
     random_choice draw best_collumns)) imaginary_board.

Definition pick_move (id difficulty_level : Z) (draw : nat) (rack : Rack) : res nat :=
  (pick_move_run id difficulty_level draw rack).1.

(** ** connect4.py: the rack, [place_disc] and [find_win] *)

Definition make_rack (num_columns num_rows : nat) : Rack :=
  replicate num_columns (replicate num_rows 0).

Fixpoint exists_legal_move (rack : Rack) : res bool :=
  match rack with
  | [] => Ok false
  | col :: rest =>
      let? v := py_last col in
      if v =? 0 then Ok true else exists_legal_move rest
  end.

(** The position a Python index [i] denotes in a list of length [len]: a
    negative index counts from the end. *)
Definition py_resolve (len : nat) (i : Z) : res nat :=
  if 0 <=? i then
    if i <? Z.of_nat len then Ok (Z.to_nat i) else Raise IndexError
  else
    if - Z.of_nat len <=? i then Ok (Z.to_nat (Z.of_nat len + i)) else Raise IndexError.

(** [while rack[column][row] != 0: row += 1], with [cells] the part of the
    column from [row] upwards: reading past the top raises. *)
Fixpoint climb (cells : list Z) (row : nat) : res nat :=
  match cells with
  | [] => Raise IndexError
  | v :: above => if negb (v =? 0) then climb above (row + 1)%nat else Ok row
  end.

(** [place_disc] returns nothing; [column] is whatever integer the caller
    passes. *)
Definition place_disc (player_number : Z) (column : Z) : M unit :=
  fun rack =>
    match py_resolve (length rack) column with
    | Raise e => (Raise e, rack)
    | Ok c =>
        match (let? col := py_get rack c in climb col 0) with
        | Raise e => (Raise e, rack)
        | Ok row => set_cell c row player_number rack
        end
    end.

(** What the first parameter of [find_win] can be bound to: the rack, or,
    in the call [find_win(c)] of the full scan, the integer [c]. *)
Inductive pyval : Type :=
  | PyInt (n : Z)
  | PyRack (rack : Rack).

Definition py_len (v : pyval) : res nat :=
  match v with
  | PyRack rack => Ok (length rack)
  | PyInt _ => Raise TypeError
  end.

Definition Win : Type := (nat * nat) * (nat * nat).

(** [row = num_rows - 1; while row > -1 and rack[column][row] == 0: row -= 1],
    with [k = row + 1]; [None] stands for [row == -1]. *)
Fixpoint drop_row (rack : Rack) (column : nat) (k : nat) : res (option nat) :=
  match k with
  | O => Ok None
  | S row =>
      let? v := cell rack column row in
      if v =? 0 then drop_row rack column row else Ok (Some row)
  end.

(** The test of the vertical win, with Python's short-circuit [and]. *)
Definition four_down (subrack : list Z) (row : nat) : res bool :=
  let? a := py_get subrack row in
  let? b := py_get subrack (row - 1) in
  if negb (a =? b) then Ok false else
  let? b := py_get subrack (row - 2) in
  if negb (a =? b) then Ok false else
  let? b := py_get subrack (row - 3) in
  Ok (a =? b).

(** [while c > 0 and rack[c-1][row] == player: c -= 1] *)
Fixpoint walk_west (rack : Rack) (row : nat) (player : Z) (c : nat) : res nat :=
  match c with
  | O => Ok c
  | S c' =>
      let? v := cell rack c' row in
      if v =? player then walk_west rack row player c' else Ok c
  end.

(** [while d < (num_cols-1) and rack[d+1][row] == player: d += 1], with
    [gap = num_cols - 1 - d]. *)
Fixpoint walk_east (rack : Rack) (row : nat) (player : Z) (gap d : nat) : res nat :=
  match gap with
  | O => Ok d
  | S gap' =>
      let? v := cell rack (d + 1) row in
      if v =? player then walk_east rack row player gap' (d + 1)%nat else Ok d
  end.

(** [while c > 0 and r > 0 and rack[c-1][r-1] == player: c -= 1; r -= 1] *)
Fixpoint walk_south_west (rack : Rack) (player : Z) (c r : nat) : res (nat * nat) :=
  match c, r with
  | S c', S r' =>
      let? v := cell rack c' r' in
      if v =? player then walk_south_west rack player c' r' else Ok (c, r)
  | _, _ => Ok (c, r)
  end.

(** [while d < (num_cols-1) and s < (num_rows-1) and rack[d+1][s+1] == player:
    d += 1; s += 1] *)
Fixpoint walk_north_east (rack : Rack) (player : Z) (num_rows gap d s : nat)
  : res (nat * nat) :=
  match gap with
  | O => Ok (d, s)
  | S gap' =>
      if negb (s <? num_rows - 1)%nat then Ok (d, s) else
      let? v := cell rack (d + 1) (s + 1) in
      if v =? player
      then walk_north_east rack player num_rows gap' (d + 1)%nat (s + 1)%nat
      else Ok (d, s)
  end.

(** [while c > 0 and r < (num_rows-1) and rack[c-1][r+1] == player:
    c -= 1; r += 1] *)
Fixpoint walk_north_west (rack : Rack) (player : Z) (num_rows c r : nat)
  : res (nat * nat) :=
  match c with
  | O => Ok (c, r)
  | S c' =>
      if negb (r <? num_rows - 1)%nat then Ok (c, r) else
      let? v := cell rack c' (r + 1) in
      if v =? player
      then walk_north_west rack player num_rows c' (r + 1)%nat
      else Ok (c, r)
  end.

(** [while d < (num_cols-1) and s > 0 and rack[d+1][s-1] == player:
    d += 1; s -= 1] *)
Fixpoint walk_south_east (rack : Rack) (player : Z) (gap d s : nat) : res (nat * nat) :=
  match gap, s with
  | S gap', S s' =>
      let? v := cell rack (d + 1) s' in
      if v =? player then walk_south_east rack player gap' (d + 1)%nat s' else Ok (d, s)
  | _, _ => Ok (d, s)
  end.

(** [find_win(rack, column)] with a column given. *)
Definition find_win_at (rack : Rack) (column : nat) : res (option Win) :=
  let num_cols := length rack in
  let? first := py_get rack 0 in
  let num_rows := length first in
  (* figure out where the disc was dropped *)
  let? landed := drop_row rack column num_rows in
  match landed with
  | None => Ok None
  | Some row =>
      let? player := cell rack column row in
      (* check for vertical win *)
      let? vertical :=
        if (3 <=? row)%nat
        then (let? subrack := py_get rack column in four_down subrack row)
        else Ok false in
      if vertical then Ok (Some ((column, row - 3), (column, row))%nat) else
      (* check for horizontal win *)
      let? c := walk_west rack row player column in
      let? d := walk_east rack row player (num_cols - 1 - column) column in
      if (3 <=? d - c)%nat then Ok (Some ((c, row), (d, row))) else
      (* check for forward-diagonal win *)
      let? '(c, r) := walk_south_west rack player column row in
      let? '(d, s) :=
        walk_north_east rack player num_rows (num_cols - 1 - column) column row in
      if (3 <=? d - c)%nat then Ok (Some ((c, r), (d, s))) else
      (* check for backward-diagonal win *)
      let? '(c, r) := walk_north_west rack player num_rows column row in
      let? '(d, s) := walk_south_east rack player (num_cols - 1 - column) column row in
      if (3 <=? d - c)%nat then Ok (Some ((c, r), (d, s))) else
      (* no win detected *)
      Ok None
  end.

(** The loop of the full scan: [call c] is [find_win(c)]. *)
Fixpoint scan_columns (call : nat -> res (option Win)) (cols : list nat)
  : res (option Win) :=
  match cols with
  | [] => Ok None
  | c :: rest =>
      let? win := call c in
      match win with
      | Some w => Ok (Some w)
      | None => scan_columns call rest
      end
  end.

(** [find_win(rack, column = None)].  The full scan calls [find_win(c)]: one
    argument, so that [rack] is bound to the integer [c] and [column] is
    [None] again.  [limit] bounds the nesting of calls, as the interpreter's
    recursion limit does. *)
Fixpoint find_win_rec (limit : nat) (rack : pyval) (column : option nat)
  : res (option Win) :=
  match column with
  | None =>
      let? n := py_len rack in
      scan_columns (fun c =>
        match limit with
        | O => Raise RecursionError
        | S limit' => find_win_rec limit' (PyInt (Z.of_nat c)) None
        end) (seq 0 n)
  | Some column =>
      match rack with
      | PyRack rack => find_win_at rack column
      | PyInt _ => Raise TypeError
      end
  end.

Definition find_win (rack : pyval) (column : option nat) : res (option Win) :=
  find_win_rec 1000 rack column.

(** ** Boards used as concrete inputs *)

Definition empty_rack : Rack := make_rack 7 6.

(** Player 2 has three in the bottom row with both ends open; player 1 is
    to move. *)
Definition three_low : Rack :=
  [[1;0;0;0;0;0]; [0;0;0;0;0;0]; [2;1;0;0;0;0]; [2;1;0;0;0;0];
   [2;0;0;0;0;0]; [0;0;0;0;0;0]; [0;0;0;0;0;0]].

(** Player 1 has just dropped into column 3 and joined two runs of three. *)
Definition seven_low : Rack :=
  [[1;2;0;0;0;0]; [1;2;0;0;0;0]; [1;2;0;0;0;0]; [1;0;0;0;0;0];
   [1;2;0;0;0;0]; [1;2;0;0;0;0]; [1;2;0;0;0;0]].

(** Player 1 has four in column 0. *)
Definition four_up : Rack :=
  [[1;1;1;1;0;0]; [2;2;2;0;0;0]; [0;0;0;0;0;0]; [0;0;0;0;0;0];
   [0;0;0;0;0;0]; [0;0;0;0;0;0]; [0;0;0;0;0;0]].

(** ** The raw sum of the evaluator and its clamp, for the proofs *)

Definition clamp (score : Z) : Z :=
  if score >? 100000 then 10000000 else
  if score <? -100000 then -10000000 else score.

(** One of the four double loops: [width] and [height] give the two bounds
    of [range] from [len(rack)] and [len(rack[i])]. *)
Definition sweep (id : Z) (rack : Rack) (width height : nat -> nat)
    (window : nat -> nat -> list (nat * nat)) (score : Z) : res Z :=
  for_range (seq 0 (width (length rack))) (fun i score =>
    let? col := py_get rack i in
    for_range (seq 0 (height (length col))) (fun j score =>
      score_window id rack (window i j) score) score) score.

Definition all_of (n : nat) : nat := n.
Definition less3 (n : nat) : nat := n - 3.

Definition raw_score (id : Z) (rack : Rack) : res Z :=
  let? score := sweep id rack all_of less3
    (fun i j => [(i, j); (i, j+1); (i, j+2); (i, j+3)]%nat) 0 in
  let? score := sweep id rack less3 all_of
    (fun i j => [(i, j); (i+1, j); (i+2, j); (i+3, j)]%nat) score in
  let? score := sweep id rack less3 less3
    (fun i j => [(i, j); (i+1, j+1); (i+2, j+2); (i+3, j+3)]%nat) score in
  sweep id rack less3 less3
    (fun i j => [(i, j+3); (i+1, j+2); (i+2, j+1); (i+3, j)]%nat) score.

(** The last three returns of both searches ("don't be mean"). *)
Definition adjust (best_score : Z) : Z :=
  if best_score >? 100000 then best_score - 1 else
  if best_score <? -100000 then best_score + 1 else best_score.

(** Column 0 is full. *)
Definition full_column : Rack :=
  [[1;2;1;2;1;2]; [0;0;0;0;0;0]; [0;0;0;0;0;0]; [0;0;0;0;0;0];
   [0;0;0;0;0;0]; [0;0;0;0;0;0]; [0;0;0;0;0;0]].

(** [row] is the lowest unowned cell of the column [col]. *)
Definition lowest_open (col : list Z) (row : nat) : Prop :=
  col !! row = Some 0 /\ forall r, (r < row)%nat -> col !! r <> Some 0.

(** ** The windows of the evaluator, for the statements *)

(** A rack with [cols] columns of [rows] cells each. *)
Definition rectangular (rack : Rack) (cols rows : nat) : Prop :=
  length rack = cols /\ Forall (fun col => length col = rows) rack.

Definition in_grid (cols rows : nat) (pos : nat * nat) : Prop :=
  (pos.1 < cols)%nat /\ (pos.2 < rows)%nat.

(** The value of a cell, 0 outside the rack. *)
Definition cell_at (rack : Rack) (pos : nat * nat) : Z :=
  match rack !! pos.1 with
  | Some col => default 0 (col !! pos.2)
  | None => 0
  end.

(** How many cells of the window [w] the player [q] owns. *)
Definition count_owner (rack : Rack) (q : Z) (w : list (nat * nat)) : Z :=
  Z.of_nat (length (filter (fun pos => cell_at rack pos = q) w)).

Definition magnitude (n : Z) : Z :=
  if n =? 1 then 1 else
  if n =? 2 then 10 else
  if n =? 3 then 100 else
  if n =? 4 then 10000000 else 0.

(** What a window adds to the score of player [p]. *)
Definition contribution (p : Z) (rack : Rack) (w : list (nat * nat)) : Z :=
  let n1 := count_owner rack 1 w in
  let n2 := count_owner rack 2 w in
  if decide (0 < n1 /\ 0 < n2) then 0 else
  if decide (n1 = 0 /\ n2 = 0) then 0 else
  if decide (n2 = 0)
  then (if decide (p = 1) then magnitude n1 else - magnitude n1)
  else (if decide (p = 2) then magnitude n2 else - magnitude n2).

(** Four cells in a line inside a [cols] by [rows] grid: upwards, sideways,
    or along one of the two diagonals. *)
Inductive is_window (cols rows : nat) : list (nat * nat) -> Prop :=
  | window_vertical c r :
      (c < cols)%nat -> (r + 3 < rows)%nat ->
      is_window cols rows [(c, r); (c, r+1); (c, r+2); (c, r+3)]%nat
  | window_horizontal c r :
      (c + 3 < cols)%nat -> (r < rows)%nat ->
      is_window cols rows [(c, r); (c+1, r); (c+2, r); (c+3, r)]%nat
  | window_rising c r :
      (c + 3 < cols)%nat -> (r + 3 < rows)%nat ->
      is_window cols rows [(c, r); (c+1, r+1); (c+2, r+2); (c+3, r+3)]%nat
  | window_falling c r :
      (c + 3 < cols)%nat -> (r + 3 < rows)%nat ->
      is_window cols rows [(c, r+3); (c+1, r+2); (c+2, r+1); (c+3, r)]%nat.

(** The windows in the order in which a double loop visits them. *)
Definition grid (n m : nat) (window : nat -> nat -> list (nat * nat))
  : list (list (nat * nat)) :=
  i ← seq 0 n; window i <$> seq 0 m.

(** The windows [_eval_function] scores, in its order. *)
Definition windows (cols rows : nat) : list (list (nat * nat)) :=
  grid (all_of cols) (less3 rows) (fun i j => [(i, j); (i, j+1); (i, j+2); (i, j+3)]%nat)
  ++ grid (less3 cols) (all_of rows) (fun i j => [(i, j); (i+1, j); (i+2, j); (i+3, j)]%nat)
  ++ grid (less3 cols) (less3 rows)
       (fun i j => [(i, j); (i+1, j+1); (i+2, j+2); (i+3, j+3)]%nat)
  ++ grid (less3 cols) (less3 rows)
       (fun i j => [(i, j+3); (i+1, j+2); (i+2, j+1); (i+3, j)]%nat).

Definition total (l : list Z) : Z := foldr Z.add 0 l.

(** ** Predicates on runs of the player, for the statements *)

(** A result that is a value or an [IndexError]. *)
Definition index_only {A} (r : res A) : Prop :=
  match r with
  | Ok _ => True
  | Raise e => e = IndexError
  end.

(** A computation that, when it returns, leaves the board as it found it,
    and that raises nothing but [IndexError]. *)
Definition restoring {A} (m : M A) : Prop :=
  forall board,
    match m board with
    | (Ok _, board') => board' = board
    | (Raise e, _) => e = IndexError
    end.

(** A rack as [make_rack] builds it: columns of one height, at least 1. *)
Definition wf_rack (rack : Rack) : Prop :=
  exists cols rows, (0 < rows)%nat /\ rectangular rack cols rows.

(** The board after [board[i][row] = v]. *)
Definition with_cell (board : Rack) (i row : nat) (v : Z) : Rack :=
  match board !! i with
  | Some col => <[i := <[row := v]> col]> board
  | None => board
  end.

(** The score [pick_move] records for column [i]: the negation of what the
    pruned search returns for the other player, one ply shallower and with
    the full window, on the rack with the player's disc dropped into [i]. *)
Definition recorded_score (id difficulty_level : Z) (rack : Rack) (i : nat) : res Z :=
  let? row := _find_top_spot_open rack i in
  res_map (fun s => s * -1)
    ((let* _ := set_cell i row id in
      _minimax_with_alpha_beta_pruning (_flip_player id) (difficulty_level - 1)
        (-100000000) 100000000) rack).1.

(** The entry of [scores] for column [i]. *)
Definition score_entry (id difficulty_level : Z) (rack : Rack) (i : nat) : option Z :=
  match top_cell rack i with
  | Ok v =>
      if negb (v =? 0) then None else
      match recorded_score id difficulty_level rack i with
      | Ok s => Some s
      | Raise _ => None
      end
  | Raise _ => None
  end.

(** What a win report says about the rack, where [row] is the row of the
    topmost disc of [column] and [player] its owner: the report spans
    [k] cells on the left of that disc and [n] on its right (for the
    vertical win, the three cells below it), all of them the player's, and
    for a horizontal or diagonal win the run stops at both ends only at the
    edge of the rack or at a cell that is not the player's. *)
Inductive win_line (rack : Rack) (column row : nat) (player : Z) : Win -> Prop :=
  | win_up :
      (3 <= row)%nat ->
      (forall j, (j <= 3)%nat -> cell rack column (row - j) = Ok player) ->
      win_line rack column row player ((column, row - 3), (column, row))%nat
  | win_side k n :
      (k <= column)%nat -> (3 <= k + n)%nat ->
      (forall j, (j <= k)%nat -> cell rack (column - j) row = Ok player) ->
      (forall j, (j <= n)%nat -> cell rack (column + j) row = Ok player) ->
      (k = column \/ cell rack (column - k - 1) row <> Ok player) ->
      cell rack (column + n + 1) row <> Ok player ->
      win_line rack column row player ((column - k, row), (column + n, row))%nat
  | win_rising k n :
      (k <= column)%nat -> (k <= row)%nat -> (3 <= k + n)%nat ->
      (forall j, (j <= k)%nat -> cell rack (column - j) (row - j) = Ok player) ->
      (forall j, (j <= n)%nat -> cell rack (column + j) (row + j) = Ok player) ->
      (k = column \/ k = row \/
       cell rack (column - k - 1) (row - k - 1) <> Ok player) ->
      cell rack (column + n + 1) (row + n + 1) <> Ok player ->
      win_line rack column row player
        ((column - k, row - k), (column + n, row + n))%nat
  | win_falling k n :
      (k <= column)%nat -> (n <= row)%nat -> (3 <= k + n)%nat ->
      (forall j, (j <= k)%nat -> cell rack (column - j) (row + j) = Ok player) ->
      (forall j, (j <= n)%nat -> cell rack (column + j) (row - j) = Ok player) ->
      (k = column \/ cell rack (column - k - 1) (row + k + 1) <> Ok player) ->
      (n = row \/ cell rack (column + n + 1) (row - n - 1) <> Ok player) ->
      win_line rack column row player
        ((column - k, row + k), (column + n, row - n))%nat.

(** ** connect4.py: turns, the text game and the colour helpers *)

(** [App._swap_player]: the player the turn passes to. *)
Definition _swap_player (current_player : Z) : Z :=
  if current_player =? 1 then 2 else 1.

(** [do_computer_turn(rack, player)], for a [ComputerPlayer] with the fields
    [id] and [difficulty_level]; the rack is handed over as a tuple of
    tuples, which [pick_move] copies. *)
Definition do_computer_turn (id difficulty_level : Z) (draw : nat) (rack : Rack)
  : res nat :=
  let? move := pick_move id difficulty_level draw rack in
  if negb ((0 <=? Z.of_nat move) && (Z.of_nat move <? Z.of_nat (length rack)))
  then Raise AssertionError else
  let? top := top_cell rack move in
  if negb (top =? 0) then Raise AssertionError else
  Ok move.

(** The column [do_human_turn] reads from one line: [int(user_input) - 1],
    or -1 when [int] raises [ValueError] ([None]). *)
Definition human_column (user_input : option Z) : Z :=
  match user_input with
  | Some n => n - 1
  | None => -1
  end.

(** The test of [do_human_turn], with Python's short-circuit [and]. *)
Definition human_column_ok (rack : Rack) (column : Z) : res bool :=
  if negb (column >=? 0) then Ok false else
  if negb (column <? Z.of_nat (length rack)) then Ok false else
  let? top := top_cell rack (Z.to_nat column) in
  Ok (top =? 0).

(** [do_human_turn(rack, player)] on the lines typed so far: the first
    accepted column, or [None] while every line was answered "INVALID" and
    the loop waits for the next. *)
Fixpoint do_human_turn (rack : Rack) (lines : list (option Z)) : res (option Z) :=
  match lines with
  | [] => Ok None
  | user_input :: rest =>
      let column := human_column user_input in
      let? ok := human_column_ok rack column in
      if ok then Ok (Some column) else do_human_turn rack rest
  end.

(** How [play_game_in_ascii] ends; [StillPlaying] when the loop has not
    ended within the turns looked at. *)
Inductive outcome : Type :=
  | Wins (player : Z) (winning_quartet : Win)
  | TieGame
  | StillPlaying.

(** The loop of [play_game_in_ascii] without its printing.  [choose n p]
    stands for the call of [do_human_turn] or [do_computer_turn] for
    player [p] in turn number [n]. *)
Fixpoint game_loop (turns : nat) (choose : nat -> Z -> Rack -> res nat)
    (n : nat) (current_player : Z) : M outcome :=
  match turns with
  | O => ret StillPlaying
  | S turns' =>
      let current_player := 3 - current_player in
      let* legal := read exists_legal_move in
      if negb legal then ret TieGame else
      let* move := read (choose n current_player) in
      let* _ := place_disc current_player (Z.of_nat move) in
      let* winning_quartet := read (fun rack => find_win (PyRack rack) (Some move)) in
      match winning_quartet with
      | Some w => ret (Wins current_player w)
      | None => game_loop turns' choose (S n) current_player
      end
  end.

(** [play_game_in_ascii]: [first] is what [random.randrange(1,3)] yields. *)
Definition play_game_in_ascii (turns : nat) (choose : nat -> Z -> Rack -> res nat)
    (first : Z) : res outcome * Rack :=
  game_loop turns choose 0 first (make_rack 7 6).

(** A colour: red, green, blue, alpha. *)
Definition Color : Type := Z * Z * Z * Z.

Definition _darken (color : Color) : Color :=
  let '(red, green, blue, alpha) := color in
  (red / 2, green / 2, blue / 2, alpha).

Definition _lighten (color : Color) : Color :=
  let '(red, green, blue, alpha) := color in
  ((red + 255) / 2, (green + 255) / 2, (blue + 255) / 2, alpha).

(** ** Predicates on racks, for the statements *)

(** Gravity: above an unowned cell of a column every cell is unowned. *)
Definition settled (col : list Z) : Prop :=
  forall r r', (r <= r')%nat -> col !! r = Some 0 -> (r' < length col)%nat ->
    col !! r' = Some 0.

(** [row] holds the topmost disc of [column], owned by [player]. *)
Definition top_disc (rack : Rack) (column rows row : nat) (player : Z) : Prop :=
  cell rack column row = Ok player /\ player <> 0 /\
  forall r, (row < r < rows)%nat -> cell rack column r = Ok 0.

(** Four cells of [player] in a line through the cell [(column, row)],
    which is the cell number [a] of the line counted from its left end
    (from its lower end for the vertical line). *)
Inductive four_through (rack : Rack) (player : Z) (column row : nat) : Prop :=
  | line_up a :
      (a <= 3)%nat -> (a <= row)%nat ->
      (forall j, (j <= 3)%nat -> cell rack column (row - a + j) = Ok player) ->
      four_through rack player column row
  | line_side a :
      (a <= 3)%nat -> (a <= column)%nat ->
      (forall j, (j <= 3)%nat -> cell rack (column - a + j) row = Ok player) ->
      four_through rack player column row
  | line_rising a :
      (a <= 3)%nat -> (a <= column)%nat -> (a <= row)%nat ->
      (forall j, (j <= 3)%nat ->
         cell rack (column - a + j) (row - a + j) = Ok player) ->
      four_through rack player column row
  | line_falling a :
      (a <= 3)%nat -> (a <= column)%nat -> (3 - a <= row)%nat ->
      (forall j, (j <= 3)%nat ->
         cell rack (column - a + j) (row + a - j) = Ok player) ->
      four_through rack player column row.

(** The rack after the player [id] has dropped a disc into column [i]. *)
Definition after_drop (rack : Rack) (i : nat) (id : Z) : Rack :=
  match _find_top_spot_open rack i with
  | Ok row => with_cell rack i row id
  | Raise _ => rack
  end.

(** The number of unowned cells of a rack. *)
Definition unowned (rack : Rack) : nat :=
  length (filter (fun v => v = 0) (concat rack)).

(** Three discs of player 1 in the bottom row, two of player 2 above them;
    player 1 is to move and completes four in column 3. *)
Definition three_in_a_row : Rack :=
  [[1;2;0;0;0;0]; [1;2;0;0;0;0]; [1;0;0;0;0;0]; [0;0;0;0;0;0];
   [0;0;0;0;0;0]; [0;0;0;0;0;0]; [0;0;0;0;0;0]].

(** Every column is full, and nobody has four in a line. *)
Definition full_rack : Rack :=
  [[1;2;1;2;1;2]; [1;2;1;2;1;2]; [1;2;1;2;1;2]; [2;1;2;1;2;1];
   [1;2;1;2;1;2]; [1;2;1;2;1;2]; [1;2;1;2;1;2]].

(** * Theorems *)

(** ** The evaluator *)

Lemma eval_raw_clamp id rack :
  _eval_function id rack = res_map clamp (raw_score id rack).
Proof.
  unfold _eval_function, raw_score, sweep, clamp, all_of, less3.
  repeat (match goal with
          | |- context [res_bind ?m _] =>
              lazymatch m with
              | for_range _ _ _ => destruct m; simpl; [|reflexivity]
              end
          end).
  repeat case_match; reflexivity.
Qed.

Lemma for_range_opp (body body' : nat -> Z -> res Z) idxs s :
  (forall i s, body' i (- s) = res_map Z.opp (body i s)) ->
  for_range idxs body' (- s) = res_map Z.opp (for_range idxs body s).
Proof.
  intros Hbody. revert s.
  induction idxs as [|i idxs IH]; intros s; simpl; [reflexivity|].
  rewrite Hbody. destruct (body i s); simpl; [apply IH | reflexivity].
Qed.

Lemma score_list_flip id rack pos :
  id = 1 \/ id = 2 ->
  _score_list (_flip_player id) rack pos
  = res_map (option_map Z.opp) (_score_list id rack pos).
Proof.
  intros Hid. unfold _score_list, _flip_player.
  destruct (negb _); [reflexivity|].
  destruct (count_cells rack pos 0 0) as [[n1 n2]|]; simpl; [|reflexivity].
  destruct (_ && _); [reflexivity|].
  destruct (_ && _); [reflexivity|].
  destruct (n2 >? n1); destruct Hid as [-> | ->]; simpl;
    repeat (destruct (_ =? _); [reflexivity|]); reflexivity.
Qed.

Lemma score_window_flip id rack pos s :
  id = 1 \/ id = 2 ->
  score_window (_flip_player id) rack pos (- s)
  = res_map Z.opp (score_window id rack pos s).
Proof.
  intros Hid. unfold score_window. rewrite score_list_flip by done.
  destruct (_score_list id rack pos) as [[n|]|]; simpl; try reflexivity.
  f_equal. lia.
Qed.

Lemma sweep_flip id rack width height window s :
  id = 1 \/ id = 2 ->
  sweep (_flip_player id) rack width height window (- s)
  = res_map Z.opp (sweep id rack width height window s).
Proof.
  intros Hid. unfold sweep. apply for_range_opp. intros i s'.
  destruct (py_get rack i); simpl; [|reflexivity].
  apply for_range_opp. intros j s''. by apply score_window_flip.
Qed.

Lemma raw_score_flip id rack :
  id = 1 \/ id = 2 ->
  raw_score (_flip_player id) rack = res_map Z.opp (raw_score id rack).
Proof.
  intros Hid. unfold raw_score.
  match goal with
  | |- context [sweep (_flip_player id) rack ?w ?h ?f 0] =>
      pose proof (sweep_flip id rack w h f 0 Hid) as Hfirst;
      change (- 0) with 0 in Hfirst; rewrite Hfirst; clear Hfirst;
      destruct (sweep id rack w h f 0); simpl; [|reflexivity]
  end.
  repeat (rewrite sweep_flip by done;
          match goal with
          | |- context [sweep id rack ?w ?h ?f ?s] =>
              destruct (sweep id rack w h f s); simpl; [|reflexivity]
          end).
  reflexivity.
Qed.

Lemma clamp_opp s : clamp (- s) = - clamp s.
Proof. unfold clamp. repeat case_match; lia. Qed.

(** C5: the evaluator is zero-sum: for a player id 1 or 2, the score of a
    rack for the other player is the exact negation of its score for this
    one (and either both calls raise or neither does). *)
Theorem eval_zero_sum (id : Z) (rack : Rack) :
  id = 1 \/ id = 2 ->
  _eval_function id rack = res_map Z.opp (_eval_function (_flip_player id) rack).
Proof.
  intros Hid. rewrite !eval_raw_clamp, raw_score_flip by done.
  destruct (raw_score id rack); simpl; [|reflexivity].
  rewrite clamp_opp. f_equal. lia.
Qed.

Lemma eval_zero_sum_witness :
  (2 = 1 \/ 2 = 2) /\
  _eval_function 2 three_low = res_map Z.opp (_eval_function (_flip_player 2) three_low).
Proof.
  split; [right; reflexivity|]. apply (eval_zero_sum 2 three_low). right; reflexivity.
Defined.

(** ** The full scan of [find_win] *)

Lemma find_win_scan_raises (rack : Rack) :
  rack <> [] -> find_win (PyRack rack) None = Raise TypeError.
Proof.
  destruct rack as [|col rest]; [done|]. intros _.
  unfold find_win. cbn [find_win_rec py_len res_bind length seq scan_columns].
  reflexivity.
Qed.

(** C4: on the empty 7-by-6 rack the full scan ([column] omitted) does not
    return "no win": the inner call [find_win(c)] binds the integer [c] to
    [rack], and taking its length raises [TypeError]. *)
Theorem find_win_full_scan_empty_rack :
  find_win (PyRack (make_rack 7 6)) None = Raise TypeError.
Proof. apply find_win_scan_raises. discriminate. Qed.

(** ** Minimax against its pruned version *)

(** C6: on [three_low], with player 1 to move and four plies, plain minimax
    yields -9999997 while the pruned search with the full window yields
    -9999996. *)
Theorem alpha_beta_differs_from_minimax :
  (_minimax 1 4 three_low).1 = Ok (-9999997) /\
  (_minimax_with_alpha_beta_pruning 1 4 (-100000000) 100000000 three_low).1
  = Ok (-9999996).
Proof. split; vm_compute; reflexivity. Qed.

(** ** Base cases of the pruned search *)

Lemma alpha_beta_plies_eq plies id alpha beta board :
  alpha_beta_plies plies id alpha beta board =
  match _eval_function id board with
  | Raise e => (Raise e, board)
  | Ok curr =>
      match plies with
      | O => (Ok curr, board)
      | S plies' =>
          if curr >? 100000 then (Ok (curr - 1), board) else
          if curr <? -100000 then (Ok (curr + 1), board) else
          match _is_tie board with
          | Raise e => (Raise e, board)
          | Ok true => (Ok 0, board)
          | Ok false =>
              match alpha_beta_loop (alpha_beta_plies plies' (_flip_player id)) id
                      (seq 0 (length board)) (-100000000) alpha beta board with
              | (Ok best, board') => (Ok (adjust best), board')
              | (Raise e, board') => (Raise e, board')
              end
          end
      end
  end.
Proof.
  destruct plies; simpl; unfold bind, read, ret, adjust;
    destruct (_eval_function id board) as [curr|]; try reflexivity.
  repeat (case_match; try reflexivity).
Qed.

Lemma minimax_plies_eq plies id board :
  minimax_plies plies id board =
  match _eval_function id board with
  | Raise e => (Raise e, board)
  | Ok curr =>
      match plies with
      | O => (Ok curr, board)
      | S plies' =>
          if curr >? 100000 then (Ok (curr - 1), board) else
          if curr <? -100000 then (Ok (curr + 1), board) else
          match _is_tie board with
          | Raise e => (Raise e, board)
          | Ok true => (Ok 0, board)
          | Ok false =>
              match minimax_loop (minimax_plies plies' (_flip_player id)) id
                      (seq 0 (length board)) (-100000000) board with
              | (Ok best, board') => (Ok (adjust best), board')
              | (Raise e, board') => (Raise e, board')
              end
          end
      end
  end.
Proof.
  destruct plies; simpl; unfold bind, read, ret, adjust;
    destruct (_eval_function id board) as [curr|]; try reflexivity.
  repeat (case_match; try reflexivity).
Qed.

(** The two searches obey the recursion of the source on the integer
    [depth]: the test [depth <= 0] and the recursive call at [depth - 1]. *)
Lemma minimax_with_alpha_beta_pruning_unfold id depth alpha beta :
  _minimax_with_alpha_beta_pruning id depth alpha beta =
  (let* curr_score := read (_eval_function id) in
   if depth <=? 0 then ret curr_score else
   if curr_score >? 100000 then ret (curr_score - 1) else
   if curr_score <? -100000 then ret (curr_score + 1) else
   let* tie := read _is_tie in
   if tie then ret 0 else
   let* n := read (fun board => Ok (length board)) in
   let* best_score :=
     alpha_beta_loop
       (_minimax_with_alpha_beta_pruning (_flip_player id) (depth - 1))
       id (seq 0 n) (-100000000) alpha beta in
   if best_score >? 100000 then ret (best_score - 1) else
   if best_score <? -100000 then ret (best_score + 1) else
   ret best_score).
Proof.
  unfold _minimax_with_alpha_beta_pruning.
  destruct (Z.leb_spec depth 0) as [Hle|Hgt].
  - by replace (Z.to_nat depth) with O by lia.
  - by replace (Z.to_nat depth) with (S (Z.to_nat (depth - 1))) by lia.
Qed.

Lemma minimax_unfold id depth :
  _minimax id depth =
  (let* curr_score := read (_eval_function id) in
   if depth <=? 0 then ret curr_score else
   if curr_score >? 100000 then ret (curr_score - 1) else
   if curr_score <? -100000 then ret (curr_score + 1) else
   let* tie := read _is_tie in
   if tie then ret 0 else
   let* n := read (fun board => Ok (length board)) in
   let* best_score :=
     minimax_loop (_minimax (_flip_player id) (depth - 1)) id (seq 0 n)
       (-100000000) in
   if best_score >? 100000 then ret (best_score - 1) else
   if best_score <? -100000 then ret (best_score + 1) else
   ret best_score).
Proof.
  unfold _minimax.
  destruct (Z.leb_spec depth 0) as [Hle|Hgt].
  - by replace (Z.to_nat depth) with O by lia.
  - by replace (Z.to_nat depth) with (S (Z.to_nat (depth - 1))) by lia.
Qed.

(** C2, as the code has it: the depth test comes first.  With
    [depth <= 0] the static evaluation is returned as it is, whatever its
    size; only with [depth > 0] is a score beyond 100000 in magnitude moved
    by 1 toward zero, and only after that is a board without legal column
    scored 0. *)
Theorem search_base_cases (id depth alpha beta : Z) (board : Rack) (s : Z) :
  _eval_function id board = Ok s ->
  (depth <= 0 ->
   _minimax_with_alpha_beta_pruning id depth alpha beta board = (Ok s, board)) /\
  (0 < depth -> 100000 < s ->
   _minimax_with_alpha_beta_pruning id depth alpha beta board = (Ok (s - 1), board)) /\
  (0 < depth -> s < -100000 ->
   _minimax_with_alpha_beta_pruning id depth alpha beta board = (Ok (s + 1), board)) /\
  (0 < depth -> -100000 <= s <= 100000 -> _is_tie board = Ok true ->
   _minimax_with_alpha_beta_pruning id depth alpha beta board = (Ok 0, board)).
Proof.
  intros Heval. unfold _minimax_with_alpha_beta_pruning.
  rewrite alpha_beta_plies_eq, Heval.
  repeat split.
  - intros Hd. replace (Z.to_nat depth) with O by lia. reflexivity.
  - intros Hd Hs. destruct (Z.to_nat depth) eqn:E; [lia|].
    destruct (Z.gtb_spec s 100000); [reflexivity | lia].
  - intros Hd Hs. destruct (Z.to_nat depth) eqn:E; [lia|].
    destruct (Z.gtb_spec s 100000); [lia|].
    destruct (Z.ltb_spec s (-100000)); [reflexivity | lia].
  - intros Hd Hs Htie. destruct (Z.to_nat depth) eqn:E; [lia|].
    destruct (Z.gtb_spec s 100000); [lia|].
    destruct (Z.ltb_spec s (-100000)); [lia|].
    rewrite Htie. reflexivity.
Qed.

Lemma search_base_cases_witness :
  _eval_function 1 four_up = Ok 10000000 /\
  _minimax_with_alpha_beta_pruning 1 0 (-100000000) 100000000 four_up
  = (Ok 10000000, four_up).
Proof.
  assert (Heval : _eval_function 1 four_up = Ok 10000000) by (vm_compute; reflexivity).
  split; [exact Heval|].
  apply (search_base_cases 1 0 (-100000000) 100000000 four_up 10000000 Heval). lia.
Defined.

(** C2 as stated fails: on [four_up] the evaluation for player 1 is
    10000000, beyond the threshold, yet with depth 0 the search returns
    10000000 itself and not 9999999. *)
Lemma search_depth_zero_returns_unadjusted :
  _eval_function 1 four_up = Ok 10000000 /\
  (_minimax_with_alpha_beta_pruning 1 0 (-100000000) 100000000 four_up).1
  = Ok 10000000 /\
  (_minimax_with_alpha_beta_pruning 1 0 (-100000000) 100000000 four_up).1
  <> Ok (10000000 - 1).
Proof. repeat split; vm_compute; congruence. Qed.

(** ** Dropping a disc *)

Lemma climb_found cells r0 k :
  lowest_open cells k -> climb cells r0 = Ok (r0 + k)%nat.
Proof.
  revert r0 k. induction cells as [|v above IH]; intros r0 k [Hk Hlow].
  - done.
  - destruct k as [|k]; simpl in *.
    + injection Hk as ->. simpl. f_equal. lia.
    + destruct (Z.eqb_spec v 0) as [->|Hv]; simpl.
      * exfalso. apply (Hlow 0%nat); [lia | done].
      * rewrite (IH (r0 + 1)%nat k).
        -- f_equal. lia.
        -- split; [done|]. intros r Hr. apply (Hlow (S r)). lia.
Qed.

Lemma climb_full cells r0 : 0 ∉ cells -> climb cells r0 = Raise IndexError.
Proof.
  revert r0. induction cells as [|v above IH]; intros r0 Hno; simpl; [done|].
  apply not_elem_of_cons in Hno as [Hv Hno].
  destruct (Z.eqb_spec v 0); [congruence|]. simpl. by apply IH.
Qed.

Lemma first_open_found (col : list Z) a n row :
  (a <= row < a + n)%nat ->
  col !! row = Some 0 ->
  (forall r, (a <= r < row)%nat -> col !! r <> Some 0) ->
  first_open col (seq a n) = Ok row.
Proof.
  revert a. induction n as [|n IH]; intros a Hrange Hrow Hlow; [lia|].
  simpl. unfold py_get at 1.
  destruct (decide (a = row)) as [->|Hne].
  - rewrite Hrow. simpl. reflexivity.
  - assert (Ha : is_Some (col !! a)).
    { apply lookup_lt_is_Some. apply lookup_lt_Some in Hrow. lia. }
    destruct Ha as [v Hv]. rewrite Hv. simpl.
    destruct (Z.eqb_spec v 0) as [->|_].
    + exfalso. apply (Hlow a); [lia | done].
    + apply IH; [lia | done |]. intros r Hr. apply Hlow. lia.
Qed.

Lemma first_open_full (col : list Z) a n :
  (a + n <= length col)%nat -> 0 ∉ col ->
  first_open col (seq a n) = Raise (Exception_ "Collumn Full"%string).
Proof.
  revert a. induction n as [|n IH]; intros a Hlen Hno; simpl; [done|].
  unfold py_get at 1.
  destruct (col !! a) as [v|] eqn:Hv.
  - simpl. destruct (Z.eqb_spec v 0) as [->|_].
    + exfalso. apply Hno. by eapply list_elem_of_lookup_2.
    + apply IH; [lia | done].
  - apply lookup_ge_None in Hv. lia.
Qed.

Lemma py_resolve_nat len (c : nat) :
  py_resolve len (Z.of_nat c) = if decide (c < len)%nat then Ok c else Raise IndexError.
Proof.
  unfold py_resolve.
  destruct (Z.leb_spec 0 (Z.of_nat c)); [|lia].
  destruct (Z.ltb_spec (Z.of_nat c) (Z.of_nat len)); case_decide; try lia.
  - by rewrite Nat2Z.id.
  - done.
Qed.

(** C9, as the code has it.  For a column index [c] counted from 0:
    if [c] is a column of the rack and [row] is its lowest unowned cell,
    [place_disc] writes the player there and returns nothing, and
    [_find_top_spot_open] returns [row]; if the column has no unowned cell,
    [place_disc] raises [IndexError] and leaves the rack as it was, and
    [_find_top_spot_open] raises [Exception("Collumn Full")]; if [c] is past
    the last column, [place_disc] raises [IndexError] and leaves the rack as
    it was. *)
Theorem place_disc_drop (rack : Rack) (player_number : Z) (c : nat) :
  match rack !! c with
  | Some col =>
      (forall row, lowest_open col row ->
         place_disc player_number (Z.of_nat c) rack
         = (Ok tt, <[c := <[row := player_number]> col]> rack)
         /\ _find_top_spot_open rack c = Ok row)
      /\ (0 ∉ col ->
          place_disc player_number (Z.of_nat c) rack = (Raise IndexError, rack)
          /\ _find_top_spot_open rack c = Raise (Exception_ "Collumn Full"%string))
  | None => place_disc player_number (Z.of_nat c) rack = (Raise IndexError, rack)
  end.
Proof.
  unfold place_disc, _find_top_spot_open. rewrite py_resolve_nat.
  destruct (rack !! c) as [col|] eqn:Hc.
  - pose proof (lookup_lt_Some _ _ _ Hc) as Hlt.
    rewrite decide_True by done. unfold py_get. rewrite Hc. simpl. split.
    + intros row Hrow. rewrite (climb_found col 0 row Hrow). simpl.
      destruct Hrow as [Hrow Hlow].
      pose proof (lookup_lt_Some _ _ _ Hrow) as Hrlt.
      unfold set_cell. rewrite Hc, decide_True by done. split; [done|].
      apply first_open_found; [lia | done |]. intros r Hr. apply Hlow. lia.
    + intros Hno. rewrite climb_full by done. split; [done|].
      by apply first_open_full.
  - apply lookup_ge_None in Hc. by rewrite decide_False by lia.
Qed.

Lemma place_disc_drop_witness :
  lowest_open [2;1;0;0;0;0] 2 /\
  place_disc 1 2 three_low
  = (Ok tt, <[2%nat := <[2%nat := 1]> [2;1;0;0;0;0]]> three_low).
Proof.
  assert (Hlow : lowest_open [2;1;0;0;0;0] 2).
  { split; [reflexivity|]. intros [|[|r]] Hr; simpl; [discriminate | discriminate | lia]. }
  split; [exact Hlow|].
  pose proof (place_disc_drop three_low 1 2) as H. simpl in H.
  exact (proj1 (proj1 H 2%nat Hlow)).
Defined.

(** C9 as stated fails: an index out of the range [0..6] need not fail, as
    [-1] drops the disc into the last column; a full column fails with the
    built-in [IndexError]; and [place_disc] returns no row. *)
Lemma place_disc_negative_column_and_full :
  place_disc 1 (-1) empty_rack
  = (Ok tt, <[6%nat := [1;0;0;0;0;0]]> empty_rack) /\
  place_disc 1 0 full_column = (Raise IndexError, full_column).
Proof. split; vm_compute; reflexivity. Qed.

(** ** What the evaluator computes on a rectangular rack *)

Lemma cell_in_grid rack cols rows pos :
  rectangular rack cols rows -> in_grid cols rows pos ->
  cell rack pos.1 pos.2 = Ok (cell_at rack pos).
Proof.
  intros [Hlen Hall] [Hc Hr]. unfold cell, cell_at, py_get.
  destruct (lookup_lt_is_Some_2 rack pos.1) as [col Hcol]; [lia|].
  rewrite Hcol. simpl.
  rewrite Forall_lookup in Hall. specialize (Hall _ _ Hcol). simpl in Hall.
  destruct (lookup_lt_is_Some_2 col pos.2) as [v Hv]; [lia|].
  by rewrite Hv.
Qed.

Lemma count_owner_cons rack q pos w :
  count_owner rack q (pos :: w)
  = (if decide (cell_at rack pos = q) then 1 else 0) + count_owner rack q w.
Proof.
  unfold count_owner. rewrite filter_cons.
  destruct (decide (cell_at rack pos = q)); simpl length; lia.
Qed.

Lemma count_owner_bounds rack q w :
  0 <= count_owner rack q w <= Z.of_nat (length w).
Proof.
  unfold count_owner.
  pose proof (length_filter (fun pos => cell_at rack pos = q) w). lia.
Qed.

Lemma count_owner_sum rack w :
  count_owner rack 1 w + count_owner rack 2 w <= Z.of_nat (length w).
Proof.
  induction w as [|pos w IH]; [done|].
  rewrite !count_owner_cons. simpl length.
  repeat case_decide; lia.
Qed.

Lemma count_cells_counts rack cols rows w a b :
  rectangular rack cols rows -> Forall (in_grid cols rows) w ->
  count_cells rack w a b = Ok (a + count_owner rack 1 w, b + count_owner rack 2 w).
Proof.
  intros Hrect Hw. revert a b.
  induction Hw as [|pos w Hpos Hw IH]; intros a b; simpl.
  - unfold count_owner. simpl. do 2 f_equal; lia.
  - rewrite (cell_in_grid _ _ _ _ Hrect Hpos). simpl.
    rewrite IH, !count_owner_cons.
    destruct (Z.eqb_spec (cell_at rack pos) 1), (Z.eqb_spec (cell_at rack pos) 2);
      repeat case_decide; try lia; do 2 f_equal; lia.
Qed.

Lemma score_list_contribution p rack cols rows w :
  rectangular rack cols rows -> Forall (in_grid cols rows) w -> length w = 4%nat ->
  _score_list p rack w = Ok (Some (contribution p rack w)).
Proof.
  intros Hrect Hw Hlen. unfold _score_list, contribution.
  rewrite Hlen. simpl negb. cbv iota.
  rewrite (count_cells_counts _ _ _ _ 0 0 Hrect Hw). simpl res_bind. cbv beta iota.
  rewrite !Z.add_0_l.
  pose proof (count_owner_bounds rack 1 w) as H1.
  pose proof (count_owner_bounds rack 2 w) as H2.
  pose proof (count_owner_sum rack w) as H12.
  rewrite Hlen in H1, H2, H12.
  generalize dependent (count_owner rack 1 w). intros n1 H1 H12.
  generalize dependent (count_owner rack 2 w). intros n2 H2 H12.
  assert (Hn1 : n1 = 0 \/ n1 = 1 \/ n1 = 2 \/ n1 = 3 \/ n1 = 4) by lia.
  assert (Hn2 : n2 = 0 \/ n2 = 1 \/ n2 = 2 \/ n2 = 3 \/ n2 = 4) by lia.
  destruct (Z.eqb_spec p 1) as [Hp1|Hp1], (Z.eqb_spec p 2) as [Hp2|Hp2];
    try (exfalso; lia);
    destruct Hn1 as [-> | [-> | [-> | [-> | ->]]]];
    destruct Hn2 as [-> | [-> | [-> | [-> | ->]]]];
    try (exfalso; lia);
    repeat case_decide; try (exfalso; lia); reflexivity.
Qed.

Lemma total_app l k : total (l ++ k) = total l + total k.
Proof. unfold total. induction l as [|x l IH]; simpl; lia. Qed.

Lemma total_cons x l : total (x :: l) = x + total l.
Proof. reflexivity. Qed.

Lemma for_range_total (body : nat -> Z -> res Z) (f : nat -> Z) idxs s :
  (forall i s, i ∈ idxs -> body i s = Ok (s + f i)) ->
  for_range idxs body s = Ok (s + total (f <$> idxs)).
Proof.
  revert s. induction idxs as [|i idxs IH]; intros s Hbody.
  - simpl. f_equal. unfold total. simpl. lia.
  - rewrite fmap_cons, total_cons. cbn [for_range].
    rewrite Hbody by left. cbn [res_bind]. rewrite IH.
    + f_equal. lia.
    + intros j s' Hj. apply Hbody. by right.
Qed.

Lemma total_grid (g : list (nat * nat) -> Z) n m window :
  total (g <$> grid n m window)
  = total ((fun i => total (g <$> (window i <$> seq 0 m))) <$> seq 0 n).
Proof.
  unfold grid. induction (seq 0 n) as [|i idxs IH]; [done|].
  rewrite bind_cons, fmap_app, total_app, IH. reflexivity.
Qed.

Lemma sweep_total p rack cols rows width height window s :
  rectangular rack cols rows ->
  (width cols <= cols)%nat ->
  (forall i j, (i < width cols)%nat -> (j < height rows)%nat ->
     Forall (in_grid cols rows) (window i j) /\ length (window i j) = 4%nat) ->
  sweep p rack width height window s
  = Ok (s + total (contribution p rack <$> grid (width cols) (height rows) window)).
Proof.
  intros Hrect Hwidth Hwin. unfold sweep.
  rewrite total_grid. destruct Hrect as [Hlen Hall]. rewrite Hlen.
  apply for_range_total. intros i s' Hi.
  apply elem_of_seq in Hi.
  destruct (lookup_lt_is_Some_2 rack i) as [col Hcol]; [lia|].
  unfold py_get at 1. rewrite Hcol. simpl.
  rewrite Forall_lookup in Hall. rewrite (Hall _ _ Hcol).
  rewrite <- list_fmap_compose.
  apply for_range_total. intros j s'' Hj. apply elem_of_seq in Hj.
  unfold score_window.
  destruct (Hwin i j) as [Hgrid Hfour]; [lia | lia |].
  rewrite (score_list_contribution p rack cols rows); [reflexivity | | done | done].
  split; [done|]. by apply Forall_lookup.
Qed.

Lemma raw_score_total p rack cols rows :
  rectangular rack cols rows ->
  raw_score p rack = Ok (total (contribution p rack <$> windows cols rows)).
Proof.
  intros Hrect. unfold raw_score, windows.
  rewrite !fmap_app, !total_app.
  rewrite (sweep_total p rack cols rows all_of less3); [simpl | done | unfold all_of; lia |].
  2: { unfold all_of, less3, in_grid. intros i j Hi Hj.
       split; [|done]. repeat constructor; simpl; lia. }
  rewrite (sweep_total p rack cols rows less3 all_of); [simpl | done | unfold less3; lia |].
  2: { unfold all_of, less3, in_grid. intros i j Hi Hj.
       split; [|done]. repeat constructor; simpl; lia. }
  rewrite (sweep_total p rack cols rows less3 less3); [simpl | done | unfold less3; lia |].
  2: { unfold all_of, less3, in_grid. intros i j Hi Hj.
       split; [|done]. repeat constructor; simpl; lia. }
  rewrite (sweep_total p rack cols rows less3 less3); [| done | unfold less3; lia |].
  2: { unfold all_of, less3, in_grid. intros i j Hi Hj.
       split; [|done]. repeat constructor; simpl; lia. }
  f_equal. lia.
Qed.

Lemma eval_rectangular p rack cols rows :
  rectangular rack cols rows ->
  _eval_function p rack = Ok (clamp (total (contribution p rack <$> windows cols rows))).
Proof.
  intros Hrect. by rewrite eval_raw_clamp, (raw_score_total p rack cols rows).
Qed.

Lemma clamp_bounds s : -10000000 <= clamp s <= 10000000.
Proof. unfold clamp. repeat case_match; lia. Qed.

(** ** Every window is scored once *)

Lemma elem_of_grid n m window w :
  w ∈ grid n m window <-> exists i j, (i < n)%nat /\ (j < m)%nat /\ w = window i j.
Proof.
  unfold grid. rewrite list_elem_of_bind. split.
  - intros (i & Hw & Hi). apply list_elem_of_fmap in Hw as (j & -> & Hj).
    apply elem_of_seq in Hi, Hj. exists i, j. repeat split; [lia | lia].
  - intros (i & j & Hi & Hj & ->). exists i. split.
    + apply list_elem_of_fmap. exists j. split; [done|]. apply elem_of_seq. lia.
    + apply elem_of_seq. lia.
Qed.

Lemma NoDup_grid n m window :
  (forall i j i' j', window i j = window i' j' -> i = i' /\ j = j') ->
  NoDup (grid n m window).
Proof.
  intros Hinj. unfold grid. apply NoDup_bind.
  - intros i i' w _ _ Hw Hw'.
    apply list_elem_of_fmap in Hw as (j & -> & _).
    apply list_elem_of_fmap in Hw' as (j' & Heq & _).
    by destruct (Hinj _ _ _ _ Heq).
  - intros i _. apply NoDup_fmap_2_strong; [|apply NoDup_seq].
    intros j j' _ _ Heq. by destruct (Hinj _ _ _ _ Heq).
  - apply NoDup_seq.
Qed.

Lemma windows_spec cols rows w :
  w ∈ windows cols rows <-> is_window cols rows w.
Proof.
  unfold windows, all_of, less3. rewrite !elem_of_app, !elem_of_grid. split.
  - intros [H | [H | [H | H]]]; destruct H as (i & j & Hi & Hj & ->);
      constructor; lia.
  - intros H. destruct H as [c r Hc Hr | c r Hc Hr | c r Hc Hr | c r Hc Hr].
    + left. exists c, r. repeat split; lia.
    + right; left. exists c, r. repeat split; lia.
    + right; right; left. exists c, r. repeat split; lia.
    + right; right; right. exists c, r. repeat split; lia.
Qed.

Lemma NoDup_windows cols rows : NoDup (windows cols rows).
Proof.
  unfold windows.
  repeat (apply NoDup_app; split;
          [ apply NoDup_grid; intros i j i' j' Heq; simplify_eq; split; lia
          | split;
            [ intros w Hw Hw';
              rewrite ?elem_of_app, !elem_of_grid in Hw';
              apply elem_of_grid in Hw as (i & j & _ & _ & ->);
              repeat (destruct Hw' as [Hw' | Hw']);
                destruct Hw' as (i' & j' & _ & _ & Heq); simplify_eq; lia
            | ] ]).
  apply NoDup_grid; intros i j i' j' Heq; simplify_eq; split; lia.
Qed.

Lemma is_window_in_grid cols rows w :
  is_window cols rows w -> Forall (in_grid cols rows) w /\ length w = 4%nat.
Proof.
  intros H. destruct H; (split; [|done]); repeat constructor; simpl; lia.
Qed.

Lemma contribution_contested p rack w :
  (0 < count_owner rack 1 w /\ 0 < count_owner rack 2 w) \/
  (count_owner rack 1 w = 0 /\ count_owner rack 2 w = 0) ->
  contribution p rack w = 0.
Proof. unfold contribution. intros H. repeat case_decide; try done; lia. Qed.

Lemma contribution_owned p rack w q :
  q = 1 \/ q = 2 ->
  count_owner rack (_flip_player q) w = 0 -> 0 < count_owner rack q w ->
  contribution p rack w
  = if decide (q = p) then magnitude (count_owner rack q w)
    else - magnitude (count_owner rack q w).
Proof.
  unfold contribution, _flip_player.
  intros [-> | ->] Hother Hown;
    [change (3 - 1) with 2 in Hother | change (3 - 2) with 1 in Hother];
    repeat case_decide; try done; try lia.
Qed.

(** C8: on a rectangular rack the evaluator scores each window of four
    cells in a line (upwards, sideways, either diagonal) exactly once; a
    window with cells of both players or of neither adds 0; a window in
    which only player [q] has cells, [n] of them, adds 1, 10, 100 or
    10000000 for [n] = 1, 2, 3, 4, with a plus sign when [q] is the player
    [p] scored for and a minus sign otherwise; the result is the sum when
    that lies in [-100000, 100000], 10000000 above and -10000000 below. *)
Theorem evaluator_windows_and_clamp (p : Z) (rack : Rack) (cols rows : nat) :
  rectangular rack cols rows ->
  NoDup (windows cols rows) /\
  (forall w, w ∈ windows cols rows <-> is_window cols rows w) /\
  (forall w, is_window cols rows w ->
     _score_list p rack w = Ok (Some (contribution p rack w)) /\
     ((0 < count_owner rack 1 w /\ 0 < count_owner rack 2 w) \/
      (count_owner rack 1 w = 0 /\ count_owner rack 2 w = 0) ->
      contribution p rack w = 0) /\
     (forall q, q = 1 \/ q = 2 ->
        count_owner rack (_flip_player q) w = 0 -> 0 < count_owner rack q w ->
        1 <= count_owner rack q w <= 4 /\
        contribution p rack w
        = if decide (q = p) then magnitude (count_owner rack q w)
          else - magnitude (count_owner rack q w))) /\
  (magnitude 1 = 1 /\ magnitude 2 = 10 /\ magnitude 3 = 100 /\
   magnitude 4 = 10000000) /\
  exists result,
    _eval_function p rack = Ok result /\
    let raw := total (contribution p rack <$> windows cols rows) in
    (-100000 <= raw <= 100000 -> result = raw) /\
    (100000 < raw -> result = 10000000) /\
    (raw < -100000 -> result = -10000000).
Proof.
  intros Hrect. split; [apply NoDup_windows|].
  split; [apply windows_spec|]. split; [|split; [done|]].
  - intros w Hw. destruct (is_window_in_grid _ _ _ Hw) as [Hgrid Hfour].
    split; [by eapply score_list_contribution|].
    split; [apply contribution_contested|].
    intros q Hq Hother Hown. split; [|by apply contribution_owned].
    pose proof (count_owner_bounds rack q w). rewrite Hfour in *. lia.
  - eexists. split; [by apply eval_rectangular|].
    unfold clamp. simpl. repeat split; intros; repeat case_match; lia.
Qed.

Lemma three_low_rectangular : rectangular three_low 7 6.
Proof. split; [reflexivity | repeat constructor]. Qed.

Lemma evaluator_windows_and_clamp_witness :
  rectangular three_low 7 6 /\
  exists result, _eval_function 1 three_low = Ok result /\
    (-100000 <= total (contribution 1 three_low <$> windows 7 6) <= 100000 ->
     result = total (contribution 1 three_low <$> windows 7 6)).
Proof.
  split; [exact three_low_rectangular|].
  destruct (evaluator_windows_and_clamp 1 three_low 7 6 three_low_rectangular)
    as (_ & _ & _ & _ & result & Heval & Hmid & _).
  exists result. split; [exact Heval | exact Hmid].
Defined.

(** ** The evaluator raises nothing but [IndexError] *)

Lemma index_only_bind {A B} (m : res A) (k : A -> res B) :
  index_only m -> (forall a, m = Ok a -> index_only (k a)) ->
  index_only (res_bind m k).
Proof. destruct m; simpl; [eauto | done]. Qed.

Lemma py_get_index_only {A} (l : list A) i : index_only (py_get l i).
Proof. unfold py_get. by destruct (l !! i). Qed.

Lemma py_last_index_only {A} (l : list A) : index_only (py_last l).
Proof. unfold py_last. by destruct (last l). Qed.

Lemma cell_index_only rack c r : index_only (cell rack c r).
Proof.
  unfold cell. apply index_only_bind; [apply py_get_index_only|].
  intros col _. apply py_get_index_only.
Qed.

Lemma top_cell_index_only rack c : index_only (top_cell rack c).
Proof.
  unfold top_cell. apply index_only_bind; [apply py_get_index_only|].
  intros col _. apply py_last_index_only.
Qed.

Lemma is_tie_index_only board : index_only (_is_tie board).
Proof.
  induction board as [|col rest IH]; simpl; [done|].
  apply index_only_bind; [apply py_last_index_only|].
  intros v _. by destruct (v =? 0).
Qed.

Lemma for_range_index_only {S} idxs (body : nat -> S -> res S) acc :
  (forall i s, index_only (body i s)) -> index_only (for_range idxs body acc).
Proof.
  intros Hbody. revert acc. induction idxs as [|i idxs IH]; intros acc; simpl; [done|].
  apply index_only_bind; [apply Hbody | intros; apply IH].
Qed.

Lemma count_cells_sound rack pos a b :
  match count_cells rack pos a b with
  | Ok (n1, n2) => a <= n1 /\ b <= n2 /\ n1 + n2 <= a + b + Z.of_nat (length pos)
  | Raise e => e = IndexError
  end.
Proof.
  revert a b. induction pos as [|p pos IH]; intros a b; [simpl; lia|].
  cbn [count_cells].
  pose proof (cell_index_only rack p.1 p.2) as Hcell.
  destruct (cell rack p.1 p.2) as [v|e]; cbn [res_bind]; [|done].
  match goal with |- context [count_cells rack pos ?x ?y] => specialize (IH x y) end.
  destruct (count_cells rack pos _ _) as [[n1 n2]|e]; [|done].
  cbn [length]. destruct (Z.eqb_spec v 1), (Z.eqb_spec v 2); lia.
Qed.

Lemma score_list_sound id rack pos :
  length pos = 4%nat ->
  match _score_list id rack pos with
  | Ok (Some _) => True
  | Ok None => False
  | Raise e => e = IndexError
  end.
Proof.
  intros Hlen. unfold _score_list. rewrite Hlen. simpl negb. cbv iota.
  pose proof (count_cells_sound rack pos 0 0) as Hcount.
  destruct (count_cells rack pos 0 0) as [[n1 n2]|e]; simpl; [|done].
  rewrite Hlen in Hcount.
  destruct (Z.gtb_spec n2 0), (Z.gtb_spec n1 0); simpl; try done;
    destruct (Z.eqb_spec n2 0), (Z.eqb_spec n1 0); simpl; try done; try lia;
    repeat (match goal with
            | |- context [Z.eqb ?x ?y] => destruct (Z.eqb_spec x y); [done|]
            end); lia.
Qed.

Lemma score_window_index_only id rack pos score :
  length pos = 4%nat -> index_only (score_window id rack pos score).
Proof.
  intros Hlen. unfold score_window.
  pose proof (score_list_sound id rack pos Hlen) as H.
  by destruct (_score_list id rack pos) as [[v|]|e].
Qed.

Lemma sweep_index_only id rack width height window score :
  (forall i j, length (window i j) = 4%nat) ->
  index_only (sweep id rack width height window score).
Proof.
  intros Hfour. unfold sweep. apply for_range_index_only. intros i s.
  apply index_only_bind; [apply py_get_index_only|]. intros col _.
  apply for_range_index_only. intros j s'. by apply score_window_index_only.
Qed.

Lemma eval_index_only id rack : index_only (_eval_function id rack).
Proof.
  rewrite eval_raw_clamp.
  assert (index_only (raw_score id rack)) as H.
  { unfold raw_score.
    repeat (apply index_only_bind; [by apply sweep_index_only | intros ? _]).
    by apply sweep_index_only. }
  by destruct (raw_score id rack).
Qed.

(** ** Simulate, recurse, undo *)

Lemma exists_lowest_open (col : list Z) k :
  col !! k = Some 0 -> exists row, (row <= k)%nat /\ lowest_open col row.
Proof.
  revert k. induction col as [|v col IH]; intros k Hk; [done|].
  destruct (decide (v = 0)) as [->|Hv].
  - exists 0%nat. split; [lia|]. split; [done|]. intros r Hr. lia.
  - destruct k as [|k]; [simpl in Hk; congruence|].
    destruct (IH k Hk) as (row & Hle & Hrow & Hlow).
    exists (S row). split; [lia|]. split; [done|].
    intros [|r] Hr; simpl; [congruence|]. apply Hlow. lia.
Qed.

Lemma top_cell_open board i :
  top_cell board i = Ok 0 ->
  exists col, board !! i = Some col /\ col !! pred (length col) = Some 0.
Proof.
  unfold top_cell, py_get, py_last. intros H.
  destruct (board !! i) as [col|]; [|done]. simpl in H.
  exists col. split; [done|]. rewrite <- last_lookup.
  destruct (last col); [congruence | done].
Qed.

Lemma find_top_spot_open_lowest board i col row :
  board !! i = Some col -> lowest_open col row ->
  _find_top_spot_open board i = Ok row.
Proof.
  intros Hcol [Hrow Hlow]. unfold _find_top_spot_open, py_get. rewrite Hcol. simpl.
  pose proof (lookup_lt_Some _ _ _ Hrow).
  apply first_open_found; [lia | done |]. intros r Hr. apply Hlow. lia.
Qed.

Lemma drop_undo board i v :
  top_cell board i = Ok 0 ->
  exists row col,
    board !! i = Some col /\ lowest_open col row /\
    _find_top_spot_open board i = Ok row /\
    set_cell i row v board = (Ok tt, with_cell board i row v) /\
    set_cell i row 0 (with_cell board i row v) = (Ok tt, board).
Proof.
  intros Htop. destruct (top_cell_open _ _ Htop) as (col & Hcol & Hlast).
  destruct (exists_lowest_open _ _ Hlast) as (row & _ & Hlow).
  exists row, col. split; [done|]. split; [done|].
  split; [by eapply find_top_spot_open_lowest|].
  destruct Hlow as [Hrow Hlow].
  pose proof (lookup_lt_Some _ _ _ Hrow) as Hrlt.
  pose proof (lookup_lt_Some _ _ _ Hcol) as Hilt.
  unfold set_cell, with_cell. rewrite Hcol, decide_True by done. split; [done|].
  rewrite list_lookup_insert_eq by done.
  rewrite decide_True by (by rewrite length_insert).
  rewrite !list_insert_insert_eq.
  rewrite (list_insert_id col row 0) by done.
  by rewrite list_insert_id.
Qed.

Lemma alpha_beta_loop_restoring (rec : Z -> Z -> M Z) id cols best alpha beta :
  (forall a b, restoring (rec a b)) ->
  restoring (alpha_beta_loop rec id cols best alpha beta).
Proof.
  intros Hrec. revert best alpha.
  induction cols as [|i cols IH]; intros best alpha board; [done|].
  cbn [alpha_beta_loop]. unfold bind at 1, read at 1.
  pose proof (top_cell_index_only board i) as Htop.
  destruct (top_cell board i) as [top|e] eqn:Etop; [|done].
  destruct (Z.eqb_spec top 0) as [->|_]; cbn [negb]; [|apply IH].
  destruct (drop_undo board i id Etop) as (row & col & _ & _ & Hfind & Hset & Hunset).
  unfold bind at 1, read at 1. rewrite Hfind.
  unfold bind at 1. rewrite Hset.
  unfold bind at 1.
  pose proof (Hrec (-1 * beta) (-1 * alpha) (with_cell board i row id)) as Hr.
  destruct (rec _ _ _) as [[s|e] board1]; [subst board1 | done].
  unfold bind at 1. rewrite Hunset.
  destruct (_ >=? _); [done | apply IH].
Qed.

Lemma alpha_beta_restoring plies id alpha beta :
  restoring (alpha_beta_plies plies id alpha beta).
Proof.
  revert id alpha beta. induction plies as [|plies IH]; intros id alpha beta board;
    rewrite alpha_beta_plies_eq;
    pose proof (eval_index_only id board) as Heval;
    destruct (_eval_function id board) as [curr|e]; try done.
  destruct (curr >? 100000); [done|]. destruct (curr <? -100000); [done|].
  pose proof (is_tie_index_only board) as Htie.
  destruct (_is_tie board) as [[|]|e]; try done.
  pose proof (alpha_beta_loop_restoring
                (alpha_beta_plies plies (_flip_player id)) id
                (seq 0 (length board)) (-100000000) alpha beta
                (fun a b => IH (_flip_player id) a b) board) as Hloop.
  by destruct (alpha_beta_loop _ _ _ _ _ _ _) as [[best|e] board'].
Qed.

Lemma minimax_loop_restoring (rec : M Z) id cols best :
  restoring rec -> restoring (minimax_loop rec id cols best).
Proof.
  intros Hrec. revert best.
  induction cols as [|i cols IH]; intros best board; [done|].
  cbn [minimax_loop]. unfold bind at 1, read at 1.
  pose proof (top_cell_index_only board i) as Htop.
  destruct (top_cell board i) as [top|e] eqn:Etop; [|done].
  destruct (Z.eqb_spec top 0) as [->|_]; cbn [negb]; [|apply IH].
  destruct (drop_undo board i id Etop) as (row & col & _ & _ & Hfind & Hset & Hunset).
  unfold bind at 1, read at 1. rewrite Hfind.
  unfold bind at 1. rewrite Hset.
  unfold bind at 1.
  pose proof (Hrec (with_cell board i row id)) as Hr.
  destruct (rec _) as [[s|e] board1]; [subst board1 | done].
  unfold bind at 1. rewrite Hunset. apply IH.
Qed.

Lemma minimax_restoring plies id : restoring (minimax_plies plies id).
Proof.
  revert id. induction plies as [|plies IH]; intros id board;
    rewrite minimax_plies_eq;
    pose proof (eval_index_only id board) as Heval;
    destruct (_eval_function id board) as [curr|e]; try done.
  destruct (curr >? 100000); [done|]. destruct (curr <? -100000); [done|].
  pose proof (is_tie_index_only board) as Htie.
  destruct (_is_tie board) as [[|]|e]; try done.
  pose proof (minimax_loop_restoring
                (minimax_plies plies (_flip_player id)) id
                (seq 0 (length board)) (-100000000)
                (IH (_flip_player id)) board) as Hloop.
  by destruct (minimax_loop _ _ _ _ _) as [[best|e] board'].
Qed.

Lemma score_moves_restoring id difficulty_level rack cols scores :
  match score_moves id difficulty_level rack cols scores rack with
  | (Ok _, board') => board' = rack
  | (Raise e, _) => e = IndexError
  end.
Proof.
  revert scores. induction cols as [|i cols IH]; intros scores; [done|].
  cbn [score_moves]. unfold bind at 1, read at 1.
  pose proof (top_cell_index_only rack i) as Htop.
  destruct (top_cell rack i) as [top|e] eqn:Etop; [|done].
  destruct (Z.eqb_spec top 0) as [->|_]; cbn [negb]; [|apply IH].
  destruct (drop_undo rack i id Etop) as (row & col & _ & _ & Hfind & Hset & Hunset).
  unfold bind at 1, read at 1. rewrite Hfind.
  unfold bind at 1. rewrite Hset.
  unfold bind at 1, _minimax_with_alpha_beta_pruning.
  pose proof (alpha_beta_restoring (Z.to_nat (difficulty_level - 1))
                (_flip_player id) (-100000000) 100000000
                (with_cell rack i row id)) as Hr.
  destruct (alpha_beta_plies _ _ _ _ _) as [[s|e] board1]; [subst board1 | done].
  unfold bind at 1. rewrite Hunset. apply IH.
Qed.

Lemma best_of_index_only scores idxs best best_collumns :
  index_only (best_of scores idxs best best_collumns).
Proof.
  revert best best_collumns.
  induction idxs as [|i idxs IH]; intros best best_collumns; [done|].
  cbn [best_of]. apply index_only_bind; [apply py_get_index_only|].
  intros [sc|] _; [|apply IH].
  destruct (best <? sc); apply IH.
Qed.

Lemma random_choice_index_only draw l : index_only (random_choice draw l).
Proof. destruct l; [done|]. apply py_get_index_only. Qed.

Lemma pick_move_run_restoring id difficulty_level draw rack :
  match pick_move_run id difficulty_level draw rack with
  | (Ok _, board') => board' = rack
  | (Raise e, _) => e = IndexError
  end.
Proof.
  unfold pick_move_run, bind.
  pose proof (score_moves_restoring id difficulty_level rack
                (seq 0 (length rack)) []) as Hloop.
  destruct (score_moves _ _ _ _ _ _) as [[scores|e] board1]; [subst board1 | done].
  unfold read.
  assert (index_only (let? best_collumns :=
                        best_of scores (seq 0 (length scores)) (-100000000) [] in
                      random_choice draw best_collumns)) as H.
  { apply index_only_bind; [apply best_of_index_only|].
    intros l _. apply random_choice_index_only. }
  by destruct (res_bind _ _).
Qed.

(** C10: whenever the top cell of a column reads 0, [_find_top_spot_open]
    returns a row of that column holding 0; and since [pick_move],
    [_minimax] and [_minimax_with_alpha_beta_pruning] call it only behind
    that test, none of them can raise [Exception("Collumn Full")], on any
    board. *)
Theorem column_full_unreachable
    (id depth alpha beta difficulty_level : Z) (draw : nat) (board : Rack) :
  (forall i, top_cell board i = Ok 0 ->
     exists row col, board !! i = Some col /\
       _find_top_spot_open board i = Ok row /\
       (row < length col)%nat /\ col !! row = Some 0) /\
  (_minimax id depth board).1 <> Raise (Exception_ "Collumn Full"%string) /\
  (_minimax_with_alpha_beta_pruning id depth alpha beta board).1
    <> Raise (Exception_ "Collumn Full"%string) /\
  pick_move id difficulty_level draw board <> Raise (Exception_ "Collumn Full"%string).
Proof.
  repeat split.
  - intros i Htop.
    destruct (drop_undo board i 0 Htop) as (row & col & Hcol & [Hrow _] & Hfind & _).
    exists row, col. repeat split; try done. by eapply lookup_lt_Some.
  - unfold _minimax.
    pose proof (minimax_restoring (Z.to_nat depth) id board) as H.
    destruct (minimax_plies _ _ _) as [[v|e] board']; simpl; [done|].
    intros [= ->]. discriminate.
  - unfold _minimax_with_alpha_beta_pruning.
    pose proof (alpha_beta_restoring (Z.to_nat depth) id alpha beta board) as H.
    destruct (alpha_beta_plies _ _ _ _ _) as [[v|e] board']; simpl; [done|].
    intros [= ->]. discriminate.
  - unfold pick_move.
    pose proof (pick_move_run_restoring id difficulty_level draw board) as H.
    destruct (pick_move_run _ _ _ _) as [[v|e] board']; simpl; [done|].
    intros [= ->]. discriminate.
Qed.

Lemma column_full_unreachable_witness :
  top_cell three_low 2 = Ok 0 /\
  exists row col, three_low !! 2%nat = Some col /\
    _find_top_spot_open three_low 2 = Ok row /\
    (row < length col)%nat /\ col !! row = Some 0.
Proof.
  assert (Htop : top_cell three_low 2 = Ok 0) by reflexivity.
  split; [exact Htop|].
  exact (proj1 (column_full_unreachable 1 4 (-100000000) 100000000 4 0 three_low)
           2%nat Htop).
Defined.

(** ** On a well-formed rack the searches return *)

Lemma wf_with_cell board i row v : wf_rack board -> wf_rack (with_cell board i row v).
Proof.
  intros (cols & rows & Hrows & Hlen & Hall). unfold with_cell.
  destruct (board !! i) as [col|] eqn:Hcol; [|by exists cols, rows].
  exists cols, rows. split; [done|]. split; [by rewrite length_insert|].
  apply Forall_insert; [done|]. rewrite length_insert.
  rewrite Forall_lookup in Hall. by apply (Hall i).
Qed.

Lemma eval_total id board :
  wf_rack board ->
  exists s, _eval_function id board = Ok s /\ -10000000 <= s <= 10000000.
Proof.
  intros (cols & rows & _ & Hrect). eexists. split; [by eapply eval_rectangular|].
  apply clamp_bounds.
Qed.

Lemma top_cell_total board i :
  wf_rack board -> (i < length board)%nat -> exists v, top_cell board i = Ok v.
Proof.
  intros (cols & rows & Hrows & Hlen & Hall) Hi. unfold top_cell, py_get, py_last.
  destruct (lookup_lt_is_Some_2 board i Hi) as [col Hcol]. rewrite Hcol. simpl.
  rewrite Forall_lookup in Hall. specialize (Hall _ _ Hcol). simpl in Hall.
  destruct (last col) as [v|] eqn:Hlast; [by exists v|].
  apply last_None in Hlast. subst col. simpl in Hall. lia.
Qed.

Lemma top_cell_lt board i v : top_cell board i = Ok v -> (i < length board)%nat.
Proof.
  unfold top_cell, py_get. destruct (board !! i) eqn:E; [|done].
  intros _. by eapply lookup_lt_Some.
Qed.

Lemma is_tie_total board :
  wf_rack board ->
  exists tie, _is_tie board = Ok tie /\
    (tie = false -> exists i, top_cell board i = Ok 0).
Proof.
  intros (cols & rows & Hrows & _ & Hall). clear cols.
  induction Hall as [|col rest Hcol Hall IH]; [by exists true|].
  cbn [_is_tie]. unfold py_last.
  destruct (last col) as [v|] eqn:Hlast.
  - simpl. destruct (Z.eqb_spec v 0) as [->|Hv].
    + exists false. split; [done|]. intros _. exists 0%nat.
      unfold top_cell, py_get, py_last. simpl. by rewrite Hlast.
    + destruct IH as (tie & Htie & Hlegal). exists tie. split; [done|].
      intros Hf. destruct (Hlegal Hf) as [i Hi]. by exists (S i).
  - apply last_None in Hlast. subst col. simpl in Hcol. lia.
Qed.

Lemma adjust_bounds best :
  -10000000 <= best <= 10000000 -> -10000000 <= adjust best <= 10000000.
Proof. unfold adjust. intros H. repeat case_match; lia. Qed.

Lemma alpha_beta_loop_total (rec : Z -> Z -> M Z) id board :
  wf_rack board ->
  (forall a b row i, wf_rack (with_cell board i row id) ->
     exists v, rec a b (with_cell board i row id) = (Ok v, with_cell board i row id)
               /\ -10000000 <= v <= 10000000) ->
  forall cols best alpha beta,
    (forall i, i ∈ cols -> (i < length board)%nat) ->
    exists best',
      alpha_beta_loop rec id cols best alpha beta board = (Ok best', board) /\
      best <= best' <= Z.max best 10000000 /\
      ((exists i, i ∈ cols /\ top_cell board i = Ok 0) -> -10000000 <= best').
Proof.
  intros Hwf Hrec cols.
  induction cols as [|i cols IH]; intros best alpha beta Hcols.
  - exists best. split; [done|]. split; [lia|].
    intros (i & Hi & _). by apply elem_of_nil in Hi.
  - cbn [alpha_beta_loop]. unfold bind at 1, read at 1.
    destruct (top_cell_total board i Hwf) as [top Etop]; [apply Hcols; left|].
    rewrite Etop.
    assert (Hrest : forall j, j ∈ cols -> (j < length board)%nat)
      by (intros j Hj; apply Hcols; by right).
    destruct (Z.eqb_spec top 0) as [->|Hne]; cbn [negb].
    + destruct (drop_undo board i id Etop)
        as (row & col & _ & _ & Hfind & Hset & Hunset).
      unfold bind at 1, read at 1. rewrite Hfind.
      unfold bind at 1. rewrite Hset.
      unfold bind at 1.
      destruct (Hrec (-1 * beta) (-1 * alpha) row i) as (v & Hv & Hbound);
        [by apply wf_with_cell|].
      rewrite Hv. unfold bind at 1. rewrite Hunset.
      destruct (_ >=? _).
      * eexists. split; [done|]. split; lia.
      * destruct (IH (Z.max (v * -1) best)
                    (Z.max alpha (Z.max (v * -1) best)) beta Hrest)
          as (best' & Hrun & Hle & _).
        exists best'. split; [done|]. split; lia.
    + destruct (IH best alpha beta Hrest) as (best' & Hrun & Hle & Hlegal).
      exists best'. split; [done|]. split; [done|].
      intros (j & Hj & Hjtop). apply Hlegal. exists j. split; [|done].
      apply elem_of_cons in Hj as [->|Hj]; [|done]. congruence.
Qed.

Lemma alpha_beta_total plies id alpha beta board :
  wf_rack board ->
  exists v, alpha_beta_plies plies id alpha beta board = (Ok v, board) /\
            -10000000 <= v <= 10000000.
Proof.
  revert id alpha beta board.
  induction plies as [|plies IH]; intros id alpha beta board Hwf;
    rewrite alpha_beta_plies_eq;
    destruct (eval_total id board Hwf) as (curr & -> & Hcurr).
  - by exists curr.
  - destruct (Z.gtb_spec curr 100000); [eexists; split; [done|lia]|].
    destruct (Z.ltb_spec curr (-100000)); [eexists; split; [done|lia]|].
    destruct (is_tie_total board Hwf) as (tie & -> & Hlegal).
    destruct tie; [eexists; split; [done|lia]|].
    destruct (alpha_beta_loop_total (alpha_beta_plies plies (_flip_player id)) id
                board Hwf) with (cols := seq 0 (length board))
      (best := -100000000) (alpha := alpha) (beta := beta)
      as (best & -> & Hle & Hlow).
    + intros a b row i Hwf'. by apply IH.
    + intros i Hi. apply elem_of_seq in Hi. lia.
    + exists (adjust best). split; [done|]. apply adjust_bounds.
      destruct (Hlegal eq_refl) as [i Hi].
      assert (-10000000 <= best); [|lia].
      apply Hlow. exists i. split; [|done].
      apply elem_of_seq. apply top_cell_lt in Hi. lia.
Qed.

(** ** The move selector *)

Lemma recorded_score_total id difficulty_level rack i :
  wf_rack rack -> top_cell rack i = Ok 0 ->
  exists row s,
    _find_top_spot_open rack i = Ok row /\
    set_cell i row id rack = (Ok tt, with_cell rack i row id) /\
    set_cell i row 0 (with_cell rack i row id) = (Ok tt, rack) /\
    _minimax_with_alpha_beta_pruning (_flip_player id) (difficulty_level - 1)
      (-100000000) 100000000 (with_cell rack i row id)
    = (Ok s, with_cell rack i row id) /\
    recorded_score id difficulty_level rack i = Ok (s * -1) /\
    -10000000 <= s * -1 <= 10000000.
Proof.
  intros Hwf Htop.
  destruct (drop_undo rack i id Htop) as (row & col & _ & _ & Hfind & Hset & Hunset).
  destruct (alpha_beta_total (Z.to_nat (difficulty_level - 1)) (_flip_player id)
              (-100000000) 100000000 (with_cell rack i row id))
    as (s & Hs & Hbound); [by apply wf_with_cell|].
  exists row, s. repeat split; try done; try lia.
  unfold recorded_score. rewrite Hfind. simpl res_bind.
  unfold bind. rewrite Hset. unfold _minimax_with_alpha_beta_pruning. by rewrite Hs.
Qed.

Lemma score_moves_total id difficulty_level rack :
  wf_rack rack ->
  forall cols scores,
    (forall i, i ∈ cols -> (i < length rack)%nat) ->
    score_moves id difficulty_level rack cols scores rack
    = (Ok (scores ++ (score_entry id difficulty_level rack <$> cols)), rack).
Proof.
  intros Hwf cols. induction cols as [|i cols IH]; intros scores Hcols.
  - simpl. by rewrite app_nil_r.
  - assert (Hrest : forall j, j ∈ cols -> (j < length rack)%nat)
      by (intros j Hj; apply Hcols; by right).
    destruct (top_cell_total rack i Hwf) as [top Etop]; [apply Hcols; left|].
    rewrite fmap_cons. cbn [score_moves].
    unfold bind at 1, read at 1. unfold score_entry at 1.
    rewrite Etop.
    destruct (Z.eqb_spec top 0) as [->|Hne]; cbn [negb].
    + destruct (recorded_score_total id difficulty_level rack i Hwf Etop)
        as (row & s & Hfind & Hset & Hunset & Hrun & -> & _).
      unfold bind at 1, read at 1. rewrite Hfind.
      unfold bind at 1. rewrite Hset.
      unfold bind at 1. rewrite Hrun.
      unfold bind at 1. rewrite Hunset.
      rewrite IH by done. by rewrite <- app_assoc.
    + rewrite IH by done. by rewrite <- app_assoc.
Qed.

Lemma best_of_spec (scores : list (option Z)) idxs best cols0 :
  (forall i, i ∈ idxs -> (i < length scores)%nat) ->
  exists best' cols',
    best_of scores idxs best cols0 = Ok cols' /\
    best <= best' /\
    (forall c, c ∈ cols' ->
       (c ∈ cols0 /\ best' = best) \/ (c ∈ idxs /\ scores !! c = Some (Some best'))) /\
    (forall j s, j ∈ idxs -> scores !! j = Some (Some s) -> s <= best') /\
    (cols0 <> [] \/
     (exists j s, j ∈ idxs /\ scores !! j = Some (Some s) /\ best <= s) ->
     cols' <> []).
Proof.
  revert best cols0. induction idxs as [|i idxs IH]; intros best cols0 Hidxs.
  - exists best, cols0. split; [done|]. split; [lia|]. split; [by left|].
    split; [intros j s Hj; by apply elem_of_nil in Hj|].
    intros [H | (j & s & Hj & _)]; [done | by apply elem_of_nil in Hj].
  - assert (Hrest : forall j, j ∈ idxs -> (j < length scores)%nat)
      by (intros j Hj; apply Hidxs; by right).
    cbn [best_of]. unfold py_get.
    destruct (lookup_lt_is_Some_2 scores i) as [entry Hentry]; [apply Hidxs; left|].
    rewrite Hentry. simpl res_bind. destruct entry as [sc|].
    + destruct (Z.ltb_spec best sc) as [Hlt|Hge].
      * rewrite Z.eqb_refl.
        destruct (IH sc ([] ++ [i]) Hrest) as (best' & cols' & Hrun & Hle & Hin & Hmax & Hne).
        exists best', cols'. split; [done|]. split; [lia|]. split; [|split].
        -- intros c Hc. right. destruct (Hin c Hc) as [[Hci ->] | [Hci Hsc]].
           ++ apply list_elem_of_singleton in Hci as ->. split; [left | done].
           ++ split; [by right | done].
        -- intros j s Hj Hs. apply elem_of_cons in Hj as [-> | Hj]; [|by eapply Hmax].
           rewrite Hentry in Hs. injection Hs as ->. done.
        -- intros _. apply Hne. by left.
      * destruct (Z.eqb_spec best sc) as [Heq|Hneq].
        -- destruct (IH best (cols0 ++ [i]) Hrest)
             as (best' & cols' & Hrun & Hle & Hin & Hmax & Hne).
           exists best', cols'. split; [done|]. split; [lia|]. split; [|split].
           ++ intros c Hc. destruct (Hin c Hc) as [[Hci ->] | [Hci Hsc]].
              ** apply elem_of_app in Hci as [Hci | Hci]; [by left|].
                 apply list_elem_of_singleton in Hci as ->. right.
                 split; [left|]. by rewrite Hentry, Heq.
              ** right. split; [by right | done].
           ++ intros j s Hj Hs. apply elem_of_cons in Hj as [-> | Hj]; [|by eapply Hmax].
              rewrite Hentry in Hs. injection Hs as ->. lia.
           ++ intros _. apply Hne. left. by destruct cols0.
        -- destruct (IH best cols0 Hrest)
             as (best' & cols' & Hrun & Hle & Hin & Hmax & Hne).
           exists best', cols'. split; [done|]. split; [lia|]. split; [|split].
           ++ intros c Hc. destruct (Hin c Hc) as [? | [Hci Hsc]]; [by left|].
              right. split; [by right | done].
           ++ intros j s Hj Hs. apply elem_of_cons in Hj as [-> | Hj]; [|by eapply Hmax].
              rewrite Hentry in Hs. injection Hs as ->. lia.
           ++ intros [H | (j & s & Hj & Hs & Hbs)]; apply Hne; [by left|].
              right. exists j, s. split; [|done].
              apply elem_of_cons in Hj as [-> | Hj]; [|done].
              rewrite Hentry in Hs. injection Hs as ->. lia.
    + destruct (IH best cols0 Hrest) as (best' & cols' & Hrun & Hle & Hin & Hmax & Hne).
      exists best', cols'. split; [done|]. split; [lia|]. split; [|split].
      * intros c Hc. destruct (Hin c Hc) as [? | [Hci Hsc]]; [by left|].
        right. split; [by right | done].
      * intros j s Hj Hs. apply elem_of_cons in Hj as [-> | Hj]; [|by eapply Hmax].
        rewrite Hentry in Hs. discriminate.
      * intros [H | (j & s & Hj & Hs & Hbs)]; apply Hne; [by left|].
        right. exists j, s. split; [|done].
        apply elem_of_cons in Hj as [-> | Hj]; [|done].
        rewrite Hentry in Hs. discriminate.
Qed.

Lemma random_choice_elem draw (l : list nat) :
  l <> [] -> exists c, random_choice draw l = Ok c /\ c ∈ l.
Proof.
  intros Hl. unfold random_choice. destruct l as [|x l]; [done|].
  set (k := (draw mod length (x :: l))%nat).
  assert (k < length (x :: l))%nat as Hk by (apply Nat.mod_upper_bound; done).
  destruct (lookup_lt_is_Some_2 _ _ Hk) as [c Hc].
  exists c. unfold py_get. rewrite Hc. split; [done|]. by eapply list_elem_of_lookup_2.
Qed.

Lemma score_entry_legal id difficulty_level rack j :
  wf_rack rack -> top_cell rack j = Ok 0 ->
  exists s, score_entry id difficulty_level rack j = Some s /\
            recorded_score id difficulty_level rack j = Ok s /\
            -10000000 <= s <= 10000000.
Proof.
  intros Hwf Htop.
  destruct (recorded_score_total id difficulty_level rack j Hwf Htop)
    as (row & s & _ & _ & _ & _ & Hrec & Hbound).
  exists (s * -1). unfold score_entry. rewrite Htop, Hrec. done.
Qed.

Lemma score_entry_some id difficulty_level rack j s :
  score_entry id difficulty_level rack j = Some s ->
  top_cell rack j = Ok 0 /\ recorded_score id difficulty_level rack j = Ok s.
Proof.
  unfold score_entry. destruct (top_cell rack j) as [v|]; [|done].
  destruct (Z.eqb_spec v 0) as [->|]; [|done]. simpl.
  destruct (recorded_score _ _ _ _); [|done]. by intros [= ->].
Qed.

(** C1: on a well-formed rack with a legal column, [pick_move] returns,
    whatever the random draw, a column [c] whose top cell is 0 and whose
    recorded score is at least the recorded score of every legal column. *)
Theorem pick_move_legal_and_best
    (id difficulty_level : Z) (draw : nat) (rack : Rack) :
  wf_rack rack ->
  (exists i, top_cell rack i = Ok 0) ->
  exists c sc,
    pick_move id difficulty_level draw rack = Ok c /\
    top_cell rack c = Ok 0 /\
    recorded_score id difficulty_level rack c = Ok sc /\
    forall j, top_cell rack j = Ok 0 ->
      exists sj, recorded_score id difficulty_level rack j = Ok sj /\ sj <= sc.
Proof.
  intros Hwf [i Hi].
  unfold pick_move, pick_move_run, bind.
  rewrite (score_moves_total id difficulty_level rack Hwf)
    by (intros j Hj; apply elem_of_seq in Hj; lia).
  rewrite app_nil_l. unfold read. cbn [fst].
  set (scores := score_entry id difficulty_level rack <$> seq 0 (length rack)).
  assert (Hlen : length scores = length rack)
    by (unfold scores; by rewrite length_fmap, length_seq).
  assert (Hlookup : forall j, (j < length rack)%nat ->
            scores !! j = Some (score_entry id difficulty_level rack j)).
  { intros j Hj. unfold scores. rewrite list_lookup_fmap, lookup_seq_lt by done.
    done. }
  assert (Hsome : forall j s, scores !! j = Some (Some s) ->
            score_entry id difficulty_level rack j = Some s).
  { intros j s Hj. pose proof (lookup_lt_Some _ _ _ Hj) as Hlt.
    rewrite Hlookup in Hj by lia. by injection Hj. }
  destruct (best_of_spec scores (seq 0 (length scores)) (-100000000) [])
    as (best & cols & Hrun & _ & Hin & Hmax & Hne).
  { intros j Hj. apply elem_of_seq in Hj. lia. }
  rewrite Hrun. cbn [res_bind].
  destruct (random_choice_elem draw cols) as (c & Hchoice & Hc).
  { apply Hne. right.
    destruct (score_entry_legal id difficulty_level rack i Hwf Hi)
      as (s & Hentry & _ & Hbound).
    pose proof (top_cell_lt _ _ _ Hi) as Hlt.
    exists i, s. split; [apply elem_of_seq; lia|].
    split; [by rewrite Hlookup, Hentry | lia]. }
  exists c, best. split; [done|].
  destruct (Hin c Hc) as [[Hnil _] | [_ Hbest]]; [by apply elem_of_nil in Hnil|].
  destruct (score_entry_some _ _ _ _ _ (Hsome _ _ Hbest)) as [Htop Hrec].
  split; [done|]. split; [done|].
  intros j Hj.
  destruct (score_entry_legal id difficulty_level rack j Hwf Hj)
    as (sj & Hentry & Hrecj & _).
  pose proof (top_cell_lt _ _ _ Hj) as Hlt.
  exists sj. split; [done|]. apply (Hmax j).
  - apply elem_of_seq. lia.
  - by rewrite Hlookup, Hentry.
Qed.

Lemma three_low_wf : wf_rack three_low.
Proof. exists 7%nat, 6%nat. split; [lia | exact three_low_rectangular]. Qed.

Lemma pick_move_legal_and_best_witness :
  wf_rack three_low /\ (exists i, top_cell three_low i = Ok 0) /\
  exists c sc,
    pick_move 1 2 0 three_low = Ok c /\
    top_cell three_low c = Ok 0 /\
    recorded_score 1 2 three_low c = Ok sc /\
    forall j, top_cell three_low j = Ok 0 ->
      exists sj, recorded_score 1 2 three_low j = Ok sj /\ sj <= sc.
Proof.
  assert (Hlegal : exists i, top_cell three_low i = Ok 0)
    by (exists 0%nat; reflexivity).
  split; [exact three_low_wf|]. split; [exact Hlegal|].
  exact (pick_move_legal_and_best 1 2 0 three_low three_low_wf Hlegal).
Defined.

(** C7: whenever [_minimax_with_alpha_beta_pruning] returns, on any board,
    the board is exactly as it was on entry, whichever way the column loop
    ended (the [break] included); whenever [pick_move] returns, its working
    copy equals the rack it was given, which it only reads; and on a
    well-formed rack the search does return, and the working copy of
    [pick_move] ends equal to the rack. *)
Theorem search_leaves_board_unchanged
    (id depth alpha beta difficulty_level : Z) (draw : nat) (board : Rack) :
  (forall v board',
     _minimax_with_alpha_beta_pruning id depth alpha beta board = (Ok v, board') ->
     board' = board) /\
  (forall c board',
     pick_move_run id difficulty_level draw board = (Ok c, board') ->
     board' = board) /\
  (wf_rack board ->
   (exists v,
      _minimax_with_alpha_beta_pruning id depth alpha beta board = (Ok v, board)) /\
   (pick_move_run id difficulty_level draw board).2 = board).
Proof.
  split; [|split].
  - intros v board' Hrun.
    pose proof (alpha_beta_restoring (Z.to_nat depth) id alpha beta board) as H.
    unfold _minimax_with_alpha_beta_pruning in Hrun. by rewrite Hrun in H.
  - intros c board' Hrun.
    pose proof (pick_move_run_restoring id difficulty_level draw board) as H.
    by rewrite Hrun in H.
  - intros Hwf. split.
    + destruct (alpha_beta_total (Z.to_nat depth) id alpha beta board Hwf)
        as (v & Hv & _).
      by exists v.
    + unfold pick_move_run, bind.
      rewrite (score_moves_total id difficulty_level board Hwf)
        by (intros j Hj; apply elem_of_seq in Hj; lia).
      reflexivity.
Qed.

Lemma search_leaves_board_unchanged_witness :
  wf_rack three_low /\
  (exists v, _minimax_with_alpha_beta_pruning 1 4 (-100000000) 100000000 three_low
             = (Ok v, three_low)) /\
  (pick_move_run 1 4 0 three_low).2 = three_low.
Proof.
  split; [exact three_low_wf|].
  exact (proj2 (proj2 (search_leaves_board_unchanged
                         1 4 (-100000000) 100000000 4 0 three_low))
           three_low_wf).
Defined.

(** ** The win detector with a column given *)

Lemma drop_row_spec rack column k row :
  drop_row rack column k = Ok (Some row) ->
  (row < k)%nat /\
  (exists player, cell rack column row = Ok player /\ player <> 0) /\
  forall r, (row < r < k)%nat -> cell rack column r = Ok 0.
Proof.
  induction k as [|k IH]; [done|]. cbn [drop_row].
  destruct (cell rack column k) as [v|] eqn:Hv; [|done]. simpl.
  destruct (Z.eqb_spec v 0) as [->|Hne].
  - intros H. destruct (IH H) as (Hlt & Hplayer & Hzero).
    split; [lia|]. split; [done|]. intros r Hr.
    destruct (decide (r = k)) as [->|]; [done|]. apply Hzero. lia.
  - intros [= <-]. split; [lia|]. split; [by exists v|]. intros r Hr. lia.
Qed.

Lemma four_down_spec subrack row :
  (3 <= row)%nat -> four_down subrack row = Ok true ->
  exists player, forall j, (j <= 3)%nat -> subrack !! (row - j)%nat = Some player.
Proof.
  intros Hrow. unfold four_down, py_get.
  destruct (subrack !! row) as [a|] eqn:Ha; [|done]. simpl.
  destruct (subrack !! (row - 1)%nat) as [b|] eqn:Hb; [|done]. simpl.
  destruct (Z.eqb_spec a b) as [<-|]; [|done]. simpl.
  destruct (subrack !! (row - 2)%nat) as [c|] eqn:Hc; [|done]. simpl.
  destruct (Z.eqb_spec a c) as [<-|]; [|done]. simpl.
  destruct (subrack !! (row - 3)%nat) as [d|] eqn:Hd; [|done]. simpl.
  destruct (Z.eqb_spec a d) as [<-|]; [|done]. intros _.
  exists a. intros j Hj.
  assert (j = 0 \/ j = 1 \/ j = 2 \/ j = 3)%nat as [-> | [-> | [-> | ->]]] by lia;
    try done. by rewrite Nat.sub_0_r.
Qed.

Lemma walk_west_spec rack row player c0 c :
  walk_west rack row player c0 = Ok c ->
  (c <= c0)%nat /\
  (forall x, (c <= x < c0)%nat -> cell rack x row = Ok player) /\
  (c = 0%nat \/ cell rack (c - 1) row <> Ok player).
Proof.
  induction c0 as [|c0 IH]; cbn [walk_west].
  - intros [= <-]. split; [lia|]. split; [intros; lia | by left].
  - destruct (cell rack c0 row) as [v|] eqn:Hv; [|done]. simpl.
    destruct (Z.eqb_spec v player) as [->|Hne].
    + intros H. destruct (IH H) as (Hle & Hrun & Hstop).
      split; [lia|]. split; [|done]. intros x Hx.
      destruct (decide (x = c0)) as [->|]; [done|]. apply Hrun. lia.
    + intros [= <-]. split; [lia|]. split; [intros; lia|]. right.
      replace (S c0 - 1)%nat with c0 by lia. rewrite Hv. congruence.
Qed.

Lemma walk_east_spec rack row player gap d0 d :
  walk_east rack row player gap d0 = Ok d ->
  (d0 <= d <= d0 + gap)%nat /\
  (forall x, (d0 < x <= d)%nat -> cell rack x row = Ok player) /\
  (d = (d0 + gap)%nat \/ cell rack (d + 1) row <> Ok player).
Proof.
  revert d0. induction gap as [|gap IH]; intros d0; cbn [walk_east].
  - intros [= <-]. split; [lia|]. split; [intros; lia | left; lia].
  - destruct (cell rack (d0 + 1) row) as [v|] eqn:Hv; [|done]. simpl.
    destruct (Z.eqb_spec v player) as [->|Hne].
    + intros H. destruct (IH _ H) as (Hle & Hrun & Hstop).
      split; [lia|]. split.
      * intros x Hx. destruct (decide (x = d0 + 1)%nat) as [->|]; [done|].
        apply Hrun. lia.
      * destruct Hstop as [-> | Hstop]; [left; lia | by right].
    + intros [= <-]. split; [lia|]. split; [intros; lia|]. right.
      rewrite Hv. congruence.
Qed.

Lemma walk_south_west_spec rack player c0 r0 c r :
  walk_south_west rack player c0 r0 = Ok (c, r) ->
  exists k, c0 = (c + k)%nat /\ r0 = (r + k)%nat /\
    (forall j, (j < k)%nat -> cell rack (c + j) (r + j) = Ok player) /\
    (c = 0%nat \/ r = 0%nat \/ cell rack (c - 1) (r - 1) <> Ok player).
Proof.
  revert r0. induction c0 as [|c0 IH]; intros r0; cbn [walk_south_west].
  - intros [= <- <-]. exists 0%nat. repeat split; lia.
  - destruct r0 as [|r0].
    + intros [= <- <-]. exists 0%nat. repeat split; lia.
    + destruct (cell rack c0 r0) as [v|] eqn:Hv; [|done]. simpl.
      destruct (Z.eqb_spec v player) as [->|Hne].
      * intros H. destruct (IH _ H) as (k & -> & -> & Hrun & Hstop).
        exists (S k). split; [lia|]. split; [lia|]. split; [|done].
        intros j Hj. destruct (decide (j = k)) as [->|]; [done|]. apply Hrun. lia.
      * intros [= <- <-]. exists 0%nat. repeat split; try lia. right; right.
        replace (S c0 - 1)%nat with c0 by lia.
        replace (S r0 - 1)%nat with r0 by lia. rewrite Hv. congruence.
Qed.

Lemma walk_north_east_spec rack player num_rows gap d0 s0 d s :
  walk_north_east rack player num_rows gap d0 s0 = Ok (d, s) ->
  exists n, d = (d0 + n)%nat /\ s = (s0 + n)%nat /\
    (forall j, (0 < j <= n)%nat -> cell rack (d0 + j) (s0 + j) = Ok player) /\
    (n = gap \/ (num_rows - 1 <= s)%nat \/ cell rack (d + 1) (s + 1) <> Ok player).
Proof.
  revert d0 s0. induction gap as [|gap IH]; intros d0 s0; cbn [walk_north_east].
  - intros [= <- <-]. exists 0%nat. repeat split; lia.
  - destruct (Nat.ltb_spec s0 (num_rows - 1)) as [Hlt|Hge]; cbn [negb].
    + destruct (cell rack (d0 + 1) (s0 + 1)) as [v|] eqn:Hv; [|done]. simpl.
      destruct (Z.eqb_spec v player) as [->|Hne].
      * intros H. destruct (IH _ _ H) as (n & -> & -> & Hrun & Hstop).
        exists (S n). split; [lia|]. split; [lia|]. split.
        -- intros j Hj. destruct (decide (j = 1%nat)) as [->|]; [done|].
           replace (d0 + j)%nat with (d0 + 1 + (j - 1))%nat by lia.
           replace (s0 + j)%nat with (s0 + 1 + (j - 1))%nat by lia.
           apply Hrun. lia.
        -- destruct Hstop as [-> | [? | ?]]; [by left | right; by left | right; by right].
      * intros [= <- <-]. exists 0%nat. repeat split; try lia. right; right.
        rewrite Hv. congruence.
    + intros [= <- <-]. exists 0%nat. repeat split; lia.
Qed.

Lemma walk_north_west_spec rack player num_rows c0 r0 c r :
  walk_north_west rack player num_rows c0 r0 = Ok (c, r) ->
  exists k, c0 = (c + k)%nat /\ r = (r0 + k)%nat /\
    (forall j, (0 < j <= k)%nat -> cell rack (c0 - j) (r0 + j) = Ok player) /\
    (c = 0%nat \/ (num_rows - 1 <= r)%nat \/ cell rack (c - 1) (r + 1) <> Ok player).
Proof.
  revert r0. induction c0 as [|c0 IH]; intros r0; cbn [walk_north_west].
  - intros [= <- <-]. exists 0%nat. repeat split; lia.
  - destruct (Nat.ltb_spec r0 (num_rows - 1)) as [Hlt|Hge]; cbn [negb].
    + destruct (cell rack c0 (r0 + 1)) as [v|] eqn:Hv; [|done]. simpl.
      destruct (Z.eqb_spec v player) as [->|Hne].
      * intros H. destruct (IH _ H) as (k & -> & -> & Hrun & Hstop).
        exists (S k). split; [lia|]. split; [lia|]. split; [|done].
        intros j Hj. destruct (decide (j = 1%nat)) as [->|].
        -- by replace (S (c + k) - 1)%nat with (c + k)%nat by lia.
        -- replace (S (c + k) - j)%nat with (c + k - (j - 1))%nat by lia.
           replace (r0 + j)%nat with (r0 + 1 + (j - 1))%nat by lia.
           apply Hrun. lia.
      * intros [= <- <-]. exists 0%nat. repeat split; try lia. right; right.
        replace (S c0 - 1)%nat with c0 by lia. rewrite Hv. congruence.
    + intros [= <- <-]. exists 0%nat. repeat split; lia.
Qed.

Lemma walk_south_east_spec rack player gap d0 s0 d s :
  walk_south_east rack player gap d0 s0 = Ok (d, s) ->
  exists n, d = (d0 + n)%nat /\ s0 = (s + n)%nat /\
    (forall j, (0 < j <= n)%nat -> cell rack (d0 + j) (s0 - j) = Ok player) /\
    (n = gap \/ s = 0%nat \/ cell rack (d + 1) (s - 1) <> Ok player).
Proof.
  revert d0 s0. induction gap as [|gap IH]; intros d0 s0; cbn [walk_south_east].
  - intros [= <- <-]. exists 0%nat. repeat split; lia.
  - destruct s0 as [|s0].
    + intros [= <- <-]. exists 0%nat. repeat split; lia.
    + destruct (cell rack (d0 + 1) s0) as [v|] eqn:Hv; [|done]. simpl.
      destruct (Z.eqb_spec v player) as [->|Hne].
      * intros H. destruct (IH _ _ H) as (n & -> & -> & Hrun & Hstop).
        exists (S n). split; [lia|]. split; [lia|]. split.
        -- intros j Hj. destruct (decide (j = 1%nat)) as [->|].
           ++ by replace (S (s + n) - 1)%nat with (s + n)%nat by lia.
           ++ replace (d0 + j)%nat with (d0 + 1 + (j - 1))%nat by lia.
              replace (S (s + n) - j)%nat with (s + n - (j - 1))%nat by lia.
              apply Hrun. lia.
        -- destruct Hstop as [-> | [? | ?]]; [by left | right; by left | right; by right].
      * intros [= <- <-]. exists 0%nat. repeat split; try lia. right; right.
        replace (S s0 - 1)%nat with s0 by lia. rewrite Hv. congruence.
Qed.

Lemma cell_off_right rack c r v : (length rack <= c)%nat -> cell rack c r <> Ok v.
Proof.
  intros Hc. unfold cell, py_get. by rewrite (lookup_ge_None_2 rack c Hc).
Qed.

Lemma cell_off_top rack cols rows c r v :
  rectangular rack cols rows -> (rows <= r)%nat -> cell rack c r <> Ok v.
Proof.
  intros [_ Hall] Hr. unfold cell, py_get.
  destruct (rack !! c) as [col|] eqn:Hcol; [|done]. simpl.
  rewrite Forall_lookup in Hall. specialize (Hall _ _ Hcol). simpl in Hall.
  rewrite (lookup_ge_None_2 col r); [done | lia].
Qed.

Lemma cell_lt rack c r v : cell rack c r = Ok v -> (c < length rack)%nat.
Proof.
  intros H. destruct (decide (c < length rack)%nat); [done|].
  exfalso. eapply cell_off_right; [|exact H]. lia.
Qed.

(** C3, as the code has it: with a column given on a rectangular rack, a
    win report of [find_win] gives the two ends of a line of same-owner
    cells through the topmost disc of that column, at least 3 apart.  For
    the vertical win the ends are exactly 3 apart.  For a horizontal or
    diagonal win they are the ends of the whole run, which may be longer
    than four cells. *)
Theorem find_win_reports_run (rack : Rack) (cols rows column : nat) (w : Win) :
  rectangular rack cols rows ->
  find_win (PyRack rack) (Some column) = Ok (Some w) ->
  exists row player,
    cell rack column row = Ok player /\ player <> 0 /\
    (forall r, (row < r < rows)%nat -> cell rack column r = Ok 0) /\
    win_line rack column row player w.
Proof.
  intros Hrect. unfold find_win. cbn [find_win_rec]. unfold find_win_at.
  destruct (py_get rack 0) as [first|] eqn:Hfirst; [|done]. cbn [res_bind].
  assert (Hrows : length first = rows).
  { unfold py_get in Hfirst. destruct (rack !! 0%nat) as [x|] eqn:Hx; [|done].
    injection Hfirst as ->. destruct Hrect as [_ Hall].
    rewrite Forall_lookup in Hall. by apply (Hall _ _ Hx). }
  rewrite Hrows.
  destruct (drop_row rack column rows) as [[row|]|] eqn:Hdrop; [|done|done].
  cbn [res_bind].
  destruct (drop_row_spec _ _ _ _ Hdrop) as (Hrow & (player & Hplayer & Hne) & Hzero).
  rewrite Hplayer. cbn [res_bind].
  pose proof (cell_lt _ _ _ _ Hplayer) as Hcol.
  intros Hrun. exists row, player. do 3 (split; [done|]). revert Hrun.
  destruct (if (3 <=? row)%nat then _ else _) as [[|]|] eqn:Hvert; [| |done];
    cbn [res_bind].
  { (* the vertical win *)
    intros [= <-]. destruct (Nat.leb_spec 3 row) as [H3|]; [|done].
    unfold cell in Hplayer.
    destruct (py_get rack column) as [subrack|] eqn:Hsub; [|done].
    cbn [res_bind] in *.
    destruct (four_down_spec subrack row H3 Hvert) as [p Hp].
    apply win_up; [done|]. intros j Hj.
    unfold cell. rewrite Hsub. cbn [res_bind]. unfold py_get in Hplayer |- *.
    pose proof (Hp 0%nat ltac:(lia)) as H0. rewrite Nat.sub_0_r in H0.
    rewrite H0 in Hplayer. injection Hplayer as ->. by rewrite (Hp j Hj). }
  clear Hvert.
  destruct (walk_west rack row player column) as [c|] eqn:Hwest; [|done].
  cbn [res_bind].
  destruct (walk_east rack row player _ column) as [d|] eqn:Heast; [|done].
  cbn [res_bind].
  destruct (walk_west_spec _ _ _ _ _ Hwest) as (Hc & Hcrun & Hcstop).
  destruct (walk_east_spec _ _ _ _ _ _ Heast) as (Hd & Hdrun & Hdstop).
  destruct (Nat.leb_spec 3 (d - c)) as [Hwide|_].
  { (* the horizontal win *)
    intros [= <-].
    replace (c, row, (d, row))
      with ((column - (column - c), row), (column + (d - column), row))%nat
      by (repeat f_equal; lia).
    apply win_side; [lia | lia | | | |].
    - intros j Hj. destruct (decide (j = 0%nat)) as [->|].
      + by rewrite Nat.sub_0_r.
      + apply Hcrun. lia.
    - intros j Hj. destruct (decide (j = 0%nat)) as [->|].
      + by rewrite Nat.add_0_r.
      + apply Hdrun. lia.
    - destruct Hcstop as [-> | Hstop]; [left; lia | right].
      by replace (column - (column - c) - 1)%nat with (c - 1)%nat by lia.
    - replace (column + (d - column) + 1)%nat with (d + 1)%nat by lia.
      destruct Hdstop as [-> | Hstop]; [|done]. apply cell_off_right. lia. }
  clear c d Hwest Heast Hc Hcrun Hcstop Hd Hdrun Hdstop.
  destruct (walk_south_west rack player column row) as [[c r]|] eqn:Hsw; [|done].
  cbn [res_bind].
  destruct (walk_north_east rack player rows _ column row) as [[d s]|] eqn:Hne';
    [|done].
  cbn [res_bind].
  destruct (walk_south_west_spec _ _ _ _ _ _ Hsw) as (k & Hck & Hrk & Hkrun & Hkstop).
  destruct (walk_north_east_spec _ _ _ _ _ _ _ _ Hne')
    as (n & -> & -> & Hnrun & Hnstop).
  destruct (Nat.leb_spec 3 (column + n - c)) as [Hwide|_].
  { (* the forward-diagonal win *)
    intros [= <-].
    replace (c, r) with ((column - k)%nat, (row - k)%nat) by (f_equal; lia).
    apply win_rising; [lia | lia | lia | | | |].
    - intros j Hj. destruct (decide (j = 0%nat)) as [->|].
      + by rewrite !Nat.sub_0_r.
      + replace (column - j)%nat with (c + (k - j))%nat by lia.
        replace (row - j)%nat with (r + (k - j))%nat by lia.
        apply Hkrun. lia.
    - intros j Hj. destruct (decide (j = 0%nat)) as [->|].
      + by rewrite !Nat.add_0_r.
      + apply Hnrun. lia.
    - destruct Hkstop as [-> | [-> | Hstop]]; [left; lia | right; left; lia |].
      right; right.
      replace (column - k - 1)%nat with (c - 1)%nat by lia.
      by replace (row - k - 1)%nat with (r - 1)%nat by lia.
    - destruct Hnstop as [-> | [Htop | Hstop]]; [| |done].
      + apply cell_off_right. lia.
      + eapply cell_off_top; [done | lia]. }
  clear c r k n Hsw Hne' Hck Hrk Hkrun Hkstop Hnrun Hnstop.
  destruct (walk_north_west rack player rows column row) as [[c r]|] eqn:Hnw; [|done].
  cbn [res_bind].
  destruct (walk_south_east rack player _ column row) as [[d s]|] eqn:Hse; [|done].
  cbn [res_bind].
  destruct (walk_north_west_spec _ _ _ _ _ _ _ Hnw) as (k & Hck & -> & Hkrun & Hkstop).
  destruct (walk_south_east_spec _ _ _ _ _ _ _ Hse) as (n & -> & Hsn & Hnrun & Hnstop).
  destruct (Nat.leb_spec 3 (column + n - c)) as [Hwide|_]; [|done].
  (* the backward-diagonal win *)
  intros [= <-].
  replace (c, (row + k)%nat) with ((column - k)%nat, (row + k)%nat) by (f_equal; lia).
  replace (column + n, s)%nat with (column + n, row - n)%nat by (f_equal; lia).
  apply win_falling; [lia | lia | lia | | | |].
  - intros j Hj. destruct (decide (j = 0%nat)) as [->|].
    + by rewrite Nat.sub_0_r, Nat.add_0_r.
    + apply Hkrun. lia.
  - intros j Hj. destruct (decide (j = 0%nat)) as [->|].
    + by rewrite Nat.sub_0_r, Nat.add_0_r.
    + apply Hnrun. lia.
  - destruct Hkstop as [-> | [Htop | Hstop]]; [left; lia | right | right].
    + eapply cell_off_top; [done | lia].
    + by replace (column - k - 1)%nat with (c - 1)%nat by lia.
  - destruct Hnstop as [-> | [-> | Hstop]]; [right | left; lia | right].
    + apply cell_off_right. lia.
    + by replace (row - n - 1)%nat with (s - 1)%nat by lia.
Qed.

Lemma seven_low_rectangular : rectangular seven_low 7 6.
Proof. split; [reflexivity | repeat constructor]. Qed.

Lemma find_win_reports_run_witness :
  rectangular seven_low 7 6 /\
  find_win (PyRack seven_low) (Some 3%nat) = Ok (Some ((0, 0), (6, 0))%nat) /\
  exists row player,
    cell seven_low 3 row = Ok player /\ player <> 0 /\
    (forall r, (row < r < 6)%nat -> cell seven_low 3 r = Ok 0) /\
    win_line seven_low 3 row player ((0, 0), (6, 0))%nat.
Proof.
  assert (Hwin : find_win (PyRack seven_low) (Some 3%nat)
                 = Ok (Some ((0, 0), (6, 0))%nat)) by (vm_compute; reflexivity).
  split; [exact seven_low_rectangular|]. split; [exact Hwin|].
  exact (find_win_reports_run seven_low 7 6 3 ((0, 0), (6, 0))%nat
           seven_low_rectangular Hwin).
Defined.

(** C3 as stated fails: on [seven_low], where the disc dropped into column
    3 joined two runs of three, the report spans the whole bottom row: its
    ends are 6 columns apart, not 3. *)
Lemma find_win_reports_whole_run :
  find_win (PyRack seven_low) (Some 3%nat) = Ok (Some ((0, 0), (6, 0))%nat) /\
  (6 - 0 <> 3)%nat.
Proof. split; [vm_compute; reflexivity | lia]. Qed.

(** * Further properties of the code *)

(** ** The empty rack *)

Lemma make_rack_lookup num_columns num_rows i :
  (i < num_columns)%nat ->
  make_rack num_columns num_rows !! i = Some (replicate num_rows 0).
Proof. intros Hi. unfold make_rack. by apply lookup_replicate_2. Qed.

Lemma make_rack_rectangular num_columns num_rows :
  rectangular (make_rack num_columns num_rows) num_columns num_rows.
Proof.
  unfold make_rack. split; [apply length_replicate|].
  apply Forall_replicate. apply length_replicate.
Qed.

Lemma make_rack_cell num_columns num_rows i j :
  (i < num_columns)%nat -> (j < num_rows)%nat ->
  cell (make_rack num_columns num_rows) i j = Ok 0.
Proof.
  intros Hi Hj. unfold cell, py_get. rewrite make_rack_lookup by done. simpl.
  by rewrite lookup_replicate_2.
Qed.

(** [make_rack] builds a rack of the size asked for in which every cell is
    unowned; with at least one row it is well formed and every column is
    legal. *)
Theorem make_rack_empty (num_columns num_rows : nat) :
  rectangular (make_rack num_columns num_rows) num_columns num_rows /\
  (forall i j, (i < num_columns)%nat -> (j < num_rows)%nat ->
     cell (make_rack num_columns num_rows) i j = Ok 0) /\
  ((0 < num_rows)%nat ->
   wf_rack (make_rack num_columns num_rows) /\
   forall i, (i < num_columns)%nat ->
     top_cell (make_rack num_columns num_rows) i = Ok 0).
Proof.
  split; [apply make_rack_rectangular|]. split; [apply make_rack_cell|].
  intros Hrows. split.
  - exists num_columns, num_rows. split; [done | apply make_rack_rectangular].
  - intros i Hi. unfold top_cell, py_get, py_last.
    rewrite make_rack_lookup by done. simpl.
    rewrite last_lookup, length_replicate.
    by rewrite lookup_replicate_2 by lia.
Qed.

Lemma make_rack_empty_witness :
  (0 < 6)%nat /\ wf_rack (make_rack 7 6) /\
  forall i, (i < 7)%nat -> top_cell (make_rack 7 6) i = Ok 0.
Proof.
  assert (H : (0 < 6)%nat) by lia. split; [exact H|].
  exact (proj2 (proj2 (make_rack_empty 7 6)) H).
Defined.

Lemma drop_row_unowned rack column k :
  (forall r, (r < k)%nat -> cell rack column r = Ok 0) ->
  drop_row rack column k = Ok None.
Proof.
  induction k as [|k IH]; intros Hzero; [done|].
  cbn [drop_row]. rewrite Hzero by lia. simpl. apply IH. intros r Hr.
  apply Hzero. lia.
Qed.

(** On an empty rack of any size, [find_win] with a column of the rack
    given reports no win. *)
Theorem find_win_empty_rack (num_columns num_rows column : nat) :
  (column < num_columns)%nat ->
  find_win (PyRack (make_rack num_columns num_rows)) (Some column) = Ok None.
Proof.
  intros Hcol. unfold find_win. cbn [find_win_rec]. unfold find_win_at.
  unfold py_get at 1. rewrite make_rack_lookup by lia. cbn [res_bind].
  rewrite length_replicate.
  rewrite drop_row_unowned; [done|].
  intros r Hr. by apply make_rack_cell.
Qed.

Lemma find_win_empty_rack_witness :
  (3 < 7)%nat /\ find_win (PyRack (make_rack 7 6)) (Some 3%nat) = Ok None.
Proof.
  assert (H : (3 < 7)%nat) by lia. split; [exact H|].
  exact (find_win_empty_rack 7 6 3 H).
Defined.

Lemma total_zero {A} (f : A -> Z) (l : list A) :
  (forall x, f x = 0) -> total (f <$> l) = 0.
Proof.
  intros Hf. induction l as [|x l IH]; [done|].
  rewrite fmap_cons, total_cons, Hf, IH. done.
Qed.

Lemma cell_at_make_rack num_columns num_rows pos :
  cell_at (make_rack num_columns num_rows) pos = 0.
Proof.
  unfold cell_at, make_rack.
  destruct (replicate num_columns (replicate num_rows 0) !! pos.1) as [col|] eqn:Hcol;
    [|done].
  apply lookup_replicate in Hcol as [-> _].
  destruct (replicate num_rows 0 !! pos.2) as [v|] eqn:Hv; [|done].
  by apply lookup_replicate in Hv as [-> _].
Qed.

Lemma count_owner_make_rack num_columns num_rows q w :
  q <> 0 -> count_owner (make_rack num_columns num_rows) q w = 0.
Proof.
  intros Hq. unfold count_owner. induction w as [|pos w IH]; [done|].
  rewrite filter_cons, cell_at_make_rack.
  destruct (decide (0 = q)); [congruence | done].
Qed.

(** On an empty rack of any size the evaluator scores 0, for any player. *)
Theorem eval_empty_rack (id : Z) (num_columns num_rows : nat) :
  _eval_function id (make_rack num_columns num_rows) = Ok 0.
Proof.
  rewrite (eval_rectangular id _ num_columns num_rows)
    by apply make_rack_rectangular.
  rewrite total_zero; [done|]. intros w.
  apply contribution_contested. right.
  by rewrite !count_owner_make_rack.
Qed.

(** ** Legal moves and ties *)

(** [_is_tie] of the player and [exists_legal_move] of the game are each
    other's negation on every board, and raise together. *)
Theorem is_tie_not_exists_legal_move (board : Rack) :
  _is_tie board = res_map negb (exists_legal_move board).
Proof.
  induction board as [|col rest IH]; [done|].
  cbn [_is_tie exists_legal_move].
  destruct (py_last col) as [v|]; [|done]. simpl.
  by destruct (v =? 0).
Qed.

Lemma top_cell_cons col rest c :
  top_cell (col :: rest) (S c) = top_cell rest c.
Proof. done. Qed.

(** [exists_legal_move] answers [True] only when some column has an unowned
    top cell, [False] only when every column has an owned one, and raises
    only [IndexError], only on a rack with a column of no cell. *)
Theorem exists_legal_move_spec (rack : Rack) :
  match exists_legal_move rack with
  | Ok true => exists c, top_cell rack c = Ok 0
  | Ok false =>
      forall c, (c < length rack)%nat -> exists v, top_cell rack c = Ok v /\ v <> 0
  | Raise e => e = IndexError /\ [] ∈ rack
  end.
Proof.
  induction rack as [|col rest IH]; [intros c Hc; simpl in Hc; lia|].
  cbn [exists_legal_move]. unfold py_last.
  destruct (last col) as [v|] eqn:Hlast; simpl.
  - destruct (Z.eqb_spec v 0) as [->|Hv].
    + exists 0%nat. unfold top_cell, py_get, py_last. simpl. by rewrite Hlast.
    + destruct (exists_legal_move rest) as [[|]|e].
      * destruct IH as [c Hc]. by exists (S c).
      * intros [|c] Hc.
        -- exists v. unfold top_cell, py_get, py_last. simpl. by rewrite Hlast.
        -- rewrite top_cell_cons. apply IH. simpl in Hc. lia.
      * destruct IH as [-> Hin]. split; [done | by right].
  - apply last_None in Hlast as ->. split; [done | by left].
Qed.

(** ** What [place_disc] does to the rack *)

Lemma climb_inv cells r0 row :
  climb cells r0 = Ok row -> exists k, row = (r0 + k)%nat /\ lowest_open cells k.
Proof.
  revert r0. induction cells as [|v above IH]; intros r0; [done|].
  cbn [climb]. destruct (Z.eqb_spec v 0) as [->|Hv]; cbn [negb].
  - intros [= <-]. exists 0%nat. split; [lia|]. split; [done|]. intros r Hr. lia.
  - intros H. destruct (IH _ H) as (k & -> & Hk & Hlow).
    exists (S k). split; [lia|]. split; [done|].
    intros [|r] Hr; simpl; [congruence|]. apply Hlow. lia.
Qed.

Lemma place_disc_inv player_number column rack rack' :
  place_disc player_number column rack = (Ok tt, rack') ->
  exists c row col,
    py_resolve (length rack) column = Ok c /\ rack !! c = Some col /\
    lowest_open col row /\ rack' = <[c := <[row := player_number]> col]> rack.
Proof.
  unfold place_disc.
  destruct (py_resolve (length rack) column) as [c|]; [|done].
  unfold py_get. destruct (rack !! c) as [col|] eqn:Hcol; [|done]. cbn [res_bind].
  destruct (climb col 0) as [row|] eqn:Hclimb; [|done].
  destruct (climb_inv _ _ _ Hclimb) as (k & -> & Hlow). simpl.
  unfold set_cell. rewrite Hcol.
  destruct Hlow as [Hk Hlow]. pose proof (lookup_lt_Some _ _ _ Hk).
  rewrite decide_True by done. intros [= <-].
  by exists c, k, col.
Qed.

Lemma cell_insert (rack : Rack) c col row v c' r' :
  rack !! c = Some col -> (row < length col)%nat ->
  cell (<[c := <[row := v]> col]> rack) c' r'
  = if decide (c' = c /\ r' = row) then Ok v else cell rack c' r'.
Proof.
  intros Hcol Hrow. pose proof (lookup_lt_Some _ _ _ Hcol) as Hc.
  unfold cell, py_get.
  destruct (decide (c' = c)) as [->|Hne].
  - rewrite list_lookup_insert_eq by done. cbn [res_bind]. rewrite Hcol.
    cbn [res_bind].
    destruct (decide (r' = row)) as [->|Hner].
    + rewrite list_lookup_insert_eq by done. by rewrite decide_True.
    + rewrite list_lookup_insert_ne by done. rewrite decide_False; [done|].
      intros [_ ?]. done.
  - rewrite list_lookup_insert_ne by done. rewrite decide_False; [done|].
    intros [? _]. done.
Qed.

Lemma cell_lookup (rack : Rack) c col r :
  rack !! c = Some col -> cell rack c r = py_get col r.
Proof. intros Hcol. unfold cell, py_get at 1. by rewrite Hcol. Qed.

Lemma unowned_insert_col (col : list Z) row v :
  col !! row = Some 0 -> v <> 0 ->
  length (filter (fun x => x = 0) col)
  = S (length (filter (fun x => x = 0) (<[row := v]> col))).
Proof.
  intros Hrow Hv. pose proof (lookup_lt_Some _ _ _ Hrow) as Hlt.
  rewrite insert_take_drop by done.
  rewrite <- (take_drop_middle col row 0 Hrow) at 1.
  rewrite !filter_app, !length_app, !filter_cons.
  rewrite decide_True by done. rewrite decide_False by done. simpl. lia.
Qed.

Lemma unowned_insert (rack : Rack) c col row v :
  rack !! c = Some col -> col !! row = Some 0 -> v <> 0 ->
  unowned rack = S (unowned (<[c := <[row := v]> col]> rack)).
Proof.
  intros Hcol Hrow Hv. pose proof (lookup_lt_Some _ _ _ Hcol) as Hlt.
  unfold unowned. rewrite insert_take_drop by done.
  rewrite <- (take_drop_middle rack c col Hcol) at 1.
  rewrite !concat_app, !concat_cons, !filter_app, !length_app.
  rewrite (unowned_insert_col col row v) by done. lia.
Qed.

(** When [place_disc] returns, exactly one cell has changed: the lowest
    unowned cell of the column now holds the player's number.  Every other
    cell and the shape of the rack are as before, and for a player number
    other than 0 the rack has one unowned cell less. *)
Theorem place_disc_changes_one_cell
    (player_number column : Z) (rack rack' : Rack) :
  place_disc player_number column rack = (Ok tt, rack') ->
  exists c row,
    py_resolve (length rack) column = Ok c /\
    cell rack c row = Ok 0 /\
    (forall r, (r < row)%nat -> cell rack c r <> Ok 0) /\
    cell rack' c row = Ok player_number /\
    (forall c' r', (c', r') <> (c, row) -> cell rack' c' r' = cell rack c' r') /\
    (forall cols rows, rectangular rack cols rows -> rectangular rack' cols rows) /\
    (player_number <> 0 -> unowned rack = S (unowned rack')).
Proof.
  intros Hplace.
  destruct (place_disc_inv _ _ _ _ Hplace) as (c & row & col & Hres & Hcol & Hlow & ->).
  destruct Hlow as [Hrow Hlow]. pose proof (lookup_lt_Some _ _ _ Hrow) as Hlt.
  exists c, row. split; [done|]. split; [|split; [|split; [|split; [|split]]]].
  - rewrite (cell_lookup _ _ _ _ Hcol). unfold py_get. by rewrite Hrow.
  - intros r Hr. rewrite (cell_lookup _ _ _ _ Hcol). unfold py_get.
    specialize (Hlow r Hr). destruct (col !! r); [congruence | done].
  - rewrite cell_insert by done. by rewrite decide_True.
  - intros c' r' Hne. rewrite cell_insert by done.
    rewrite decide_False; [done|]. intros [-> ->]. done.
  - intros cols rows [Hlen Hall]. split; [by rewrite length_insert|].
    apply Forall_insert; [done|]. rewrite length_insert.
    rewrite Forall_lookup in Hall. by apply (Hall c).
  - intros Hp. by apply unowned_insert.
Qed.

Lemma place_disc_changes_one_cell_witness :
  place_disc 1 2 three_low
  = (Ok tt, <[2%nat := [2;1;1;0;0;0]]> three_low) /\
  exists c row,
    py_resolve (length three_low) 2 = Ok c /\
    cell three_low c row = Ok 0 /\
    cell (<[2%nat := [2;1;1;0;0;0]]> three_low) c row = Ok 1.
Proof.
  assert (H : place_disc 1 2 three_low
              = (Ok tt, <[2%nat := [2;1;1;0;0;0]]> three_low)) by reflexivity.
  split; [exact H|].
  destruct (place_disc_changes_one_cell 1 2 three_low _ H)
    as (c & row & Hres & Hzero & _ & Hnew & _).
  exists c, row. split; [exact Hres|]. split; [exact Hzero | exact Hnew].
Defined.

Lemma settled_insert (col : list Z) row v :
  settled col -> lowest_open col row -> settled (<[row := v]> col).
Proof.
  intros Hset [Hrow Hlow] r r' Hle Hr Hr'.
  rewrite length_insert in Hr'.
  pose proof (lookup_lt_Some _ _ _ Hrow) as Hlt.
  destruct (decide (r = row)) as [->|Hne].
  - rewrite list_lookup_insert_eq in Hr by done. injection Hr as ->.
    destruct (decide (r' = row)) as [->|Hne'].
    + by rewrite list_lookup_insert_eq.
    + rewrite list_lookup_insert_ne by done. by apply (Hset row r'); [lia | |].
  - rewrite list_lookup_insert_ne in Hr by done.
    assert (row < r)%nat.
    { destruct (decide (r < row)%nat) as [Hlow'|]; [|lia].
      by destruct (Hlow r Hlow'). }
    rewrite list_lookup_insert_ne by lia. by apply (Hset r r').
Qed.

(** Gravity is kept: every column of a rack of [make_rack] has its unowned
    cells on top, and [place_disc] keeps that so. *)
Theorem gravity_kept :
  (forall num_columns num_rows, Forall settled (make_rack num_columns num_rows)) /\
  (forall player_number column rack rack',
     Forall settled rack ->
     place_disc player_number column rack = (Ok tt, rack') ->
     Forall settled rack').
Proof.
  split.
  - intros num_columns num_rows. apply Forall_replicate.
    intros r r' _ _ Hr'. rewrite length_replicate in Hr'.
    by apply lookup_replicate_2.
  - intros p column rack rack' Hset Hplace.
    destruct (place_disc_inv _ _ _ _ Hplace) as (c & row & col & _ & Hcol & Hlow & ->).
    apply Forall_insert; [done|]. apply settled_insert; [|done].
    rewrite Forall_lookup in Hset. by apply (Hset c).
Qed.

Lemma gravity_kept_witness :
  Forall settled (make_rack 7 6) /\
  Forall settled (<[3%nat := [1;0;0;0;0;0]]> (make_rack 7 6)).
Proof.
  assert (H0 : Forall settled (make_rack 7 6)) by exact (proj1 gravity_kept 7%nat 6%nat).
  split; [exact H0|].
  apply (proj2 gravity_kept 1 3 (make_rack 7 6) _ H0). reflexivity.
Defined.

Lemma drop_row_top rack column k row player :
  (row < k)%nat -> cell rack column row = Ok player -> player <> 0 ->
  (forall r, (row < r < k)%nat -> cell rack column r = Ok 0) ->
  drop_row rack column k = Ok (Some row).
Proof.
  intros Hrow Hcell Hp. induction k as [|k IH]; intros Hzero; [lia|].
  cbn [drop_row]. destruct (decide (k = row)) as [->|Hne].
  - rewrite Hcell. simpl. by destruct (Z.eqb_spec player 0).
  - rewrite Hzero by lia. simpl. apply IH; [lia|]. intros r Hr. apply Hzero. lia.
Qed.

Lemma place_disc_top
    (player_number column : Z) (rack rack' : Rack) (cols rows : nat) :
  rectangular rack cols rows -> Forall settled rack -> player_number <> 0 ->
  place_disc player_number column rack = (Ok tt, rack') ->
  exists c row,
    py_resolve (length rack) column = Ok c /\
    cell rack c row = Ok 0 /\
    top_disc rack' c rows row player_number /\
    drop_row rack' c rows = Ok (Some row).
Proof.
  intros [Hlen Hall] Hset Hp Hplace.
  destruct (place_disc_inv _ _ _ _ Hplace)
    as (c & row & col & Hres & Hcol & [Hrow Hlow] & ->).
  pose proof (lookup_lt_Some _ _ _ Hrow) as Hlt.
  rewrite Forall_lookup in Hall. pose proof (Hall _ _ Hcol) as Hrows. simpl in Hrows.
  rewrite Forall_lookup in Hset. pose proof (Hset _ _ Hcol) as Hsettled.
  assert (Htop : top_disc (<[c := <[row := player_number]> col]> rack) c rows row
                   player_number).
  { split; [|split; [done|]].
    - rewrite cell_insert by done. by rewrite decide_True.
    - intros r Hr. rewrite cell_insert by done.
      rewrite decide_False by (intros [_ ->]; lia).
      rewrite (cell_lookup _ _ _ _ Hcol). unfold py_get.
      rewrite (Hsettled row r); [done | lia | done | lia]. }
  exists c, row. split; [done|]. split; [|split; [done|]].
  - rewrite (cell_lookup _ _ _ _ Hcol). unfold py_get. by rewrite Hrow.
  - destruct Htop as (Hcell & _ & Hzero).
    eapply drop_row_top; [lia | done | done | done].
Qed.

(** On a rectangular rack that obeys gravity, after [place_disc] for a
    player number other than 0 the disc just dropped is the topmost disc of
    its column, and it is the disc the downward scan of [find_win] stops
    at. *)
Theorem place_disc_then_scan
    (player_number column : Z) (rack rack' : Rack) (cols rows : nat) :
  rectangular rack cols rows -> Forall settled rack -> player_number <> 0 ->
  place_disc player_number column rack = (Ok tt, rack') ->
  exists c row,
    py_resolve (length rack) column = Ok c /\
    cell rack c row = Ok 0 /\
    top_disc rack' c rows row player_number /\
    drop_row rack' c rows = Ok (Some row).
Proof. exact (place_disc_top player_number column rack rack' cols rows). Qed.

Lemma place_disc_then_scan_witness :
  rectangular three_low 7 6 /\ Forall settled three_low /\ 1 <> 0 /\
  exists c row,
    py_resolve (length three_low) 2 = Ok c /\
    cell three_low c row = Ok 0 /\
    top_disc (<[2%nat := [2;1;1;0;0;0]]> three_low) c 6 row 1 /\
    drop_row (<[2%nat := [2;1;1;0;0;0]]> three_low) c 6 = Ok (Some row).
Proof.
  assert (Hset : Forall settled three_low).
  { repeat constructor; intros r r' Hle Hr Hr';
      repeat (destruct r as [|r]; try discriminate);
      repeat (destruct r' as [|r']; try (simpl in Hr'; lia); try reflexivity);
      try lia. }
  assert (Hp : 1 <> 0) by lia.
  split; [exact three_low_rectangular|]. split; [exact Hset|]. split; [exact Hp|].
  apply (place_disc_then_scan 1 2 three_low _ 7 6 three_low_rectangular Hset Hp).
  reflexivity.
Defined.

(** ** [find_win] with a column given: it returns, and misses no win *)

Lemma cell_total rack cols rows c r :
  rectangular rack cols rows -> (c < cols)%nat -> (r < rows)%nat ->
  exists v, cell rack c r = Ok v.
Proof.
  intros Hrect Hc Hr. exists (cell_at rack (c, r)).
  by apply (cell_in_grid rack cols rows (c, r)).
Qed.

Lemma drop_row_total rack cols rows column k :
  rectangular rack cols rows -> (column < cols)%nat -> (k <= rows)%nat ->
  exists landed, drop_row rack column k = Ok landed.
Proof.
  intros Hrect Hc. induction k as [|k IH]; intros Hk; [by eexists|].
  cbn [drop_row]. destruct (cell_total rack cols rows column k) as [v ->]; [done..|lia|].
  simpl. destruct (v =? 0); [apply IH; lia | by eexists].
Qed.

Lemma walk_west_total rack cols rows row player c0 :
  rectangular rack cols rows -> (row < rows)%nat -> (c0 <= cols)%nat ->
  exists c, walk_west rack row player c0 = Ok c.
Proof.
  intros Hrect Hrow. induction c0 as [|c0 IH]; intros Hc; [by eexists|].
  cbn [walk_west]. destruct (cell_total rack cols rows c0 row) as [v ->]; [done|lia|done|].
  simpl. destruct (v =? player); [apply IH; lia | by eexists].
Qed.

Lemma walk_east_total rack cols rows row player gap d0 :
  rectangular rack cols rows -> (row < rows)%nat -> (d0 + gap < cols)%nat ->
  exists d, walk_east rack row player gap d0 = Ok d.
Proof.
  intros Hrect Hrow. revert d0. induction gap as [|gap IH]; intros d0 Hd; [by eexists|].
  cbn [walk_east].
  destruct (cell_total rack cols rows (d0 + 1) row) as [v ->]; [done|lia|done|].
  simpl. destruct (v =? player); [apply IH; lia | by eexists].
Qed.

Lemma walk_south_west_total rack cols rows player c0 r0 :
  rectangular rack cols rows -> (c0 <= cols)%nat -> (r0 <= rows)%nat ->
  exists cr, walk_south_west rack player c0 r0 = Ok cr.
Proof.
  intros Hrect. revert r0. induction c0 as [|c0 IH]; intros r0 Hc Hr; [by eexists|].
  cbn [walk_south_west]. destruct r0 as [|r0]; [by eexists|].
  destruct (cell_total rack cols rows c0 r0) as [v ->]; [done|lia|lia|].
  simpl. destruct (v =? player); [apply IH; lia | by eexists].
Qed.

Lemma walk_north_east_total rack cols rows player gap d0 s0 :
  rectangular rack cols rows -> (d0 + gap < cols)%nat ->
  exists ds, walk_north_east rack player rows gap d0 s0 = Ok ds.
Proof.
  intros Hrect. revert d0 s0.
  induction gap as [|gap IH]; intros d0 s0 Hd; [by eexists|].
  cbn [walk_north_east].
  destruct (Nat.ltb_spec s0 (rows - 1)) as [Hlt|Hge]; cbn [negb]; [|by eexists].
  destruct (cell_total rack cols rows (d0 + 1) (s0 + 1)) as [v ->]; [done|lia|lia|].
  simpl. destruct (v =? player); [apply IH; lia | by eexists].
Qed.

Lemma walk_north_west_total rack cols rows player c0 r0 :
  rectangular rack cols rows -> (c0 <= cols)%nat ->
  exists cr, walk_north_west rack player rows c0 r0 = Ok cr.
Proof.
  intros Hrect. revert r0. induction c0 as [|c0 IH]; intros r0 Hc; [by eexists|].
  cbn [walk_north_west].
  destruct (Nat.ltb_spec r0 (rows - 1)) as [Hlt|Hge]; cbn [negb]; [|by eexists].
  destruct (cell_total rack cols rows c0 (r0 + 1)) as [v ->]; [done|lia|lia|].
  simpl. destruct (v =? player); [apply IH; lia | by eexists].
Qed.

Lemma walk_south_east_total rack cols rows player gap d0 s0 :
  rectangular rack cols rows -> (d0 + gap < cols)%nat -> (s0 <= rows)%nat ->
  exists ds, walk_south_east rack player gap d0 s0 = Ok ds.
Proof.
  intros Hrect. revert d0 s0.
  induction gap as [|gap IH]; intros d0 s0 Hd Hs; [by eexists|].
  cbn [walk_south_east]. destruct s0 as [|s0]; [by eexists|].
  destruct (cell_total rack cols rows (d0 + 1) s0) as [v ->]; [done|lia|lia|].
  simpl. destruct (v =? player); [apply IH; lia | by eexists].
Qed.

Lemma cell_rows rack cols rows c r v :
  rectangular rack cols rows -> cell rack c r = Ok v -> (r < rows)%nat.
Proof.
  intros Hrect H. destruct (decide (r < rows)%nat); [done|].
  exfalso. eapply cell_off_top; [done | | exact H]. lia.
Qed.

(** The vertical test answers [True] exactly when four cells of the player
    in the column include the topmost disc. *)
Lemma vertical_iff rack cols rows column row player :
  rectangular rack cols rows -> top_disc rack column rows row player ->
  exists vertical,
    (if (3 <=? row)%nat
     then (let? subrack := py_get rack column in four_down subrack row)
     else Ok false) = Ok vertical /\
    (vertical = true <->
     exists a, (a <= 3)%nat /\ (a <= row)%nat /\
       forall j, (j <= 3)%nat -> cell rack column (row - a + j) = Ok player).
Proof.
  intros Hrect (Hcell & Hp & Hzero).
  pose proof (cell_rows _ _ _ _ _ _ Hrect Hcell) as Hrow.
  assert (Hlow : forall a, (a < 3)%nat -> (a <= row)%nat ->
            ~ (forall j, (j <= 3)%nat -> cell rack column (row - a + j) = Ok player)).
  { intros a Ha Harow Hline. specialize (Hline 3%nat ltac:(lia)).
    destruct (decide (row - a + 3 < rows)%nat) as [Hin|Hout].
    - rewrite Hzero in Hline by lia. congruence.
    - eapply cell_off_top; [done | | exact Hline]. lia. }
  destruct (Nat.leb_spec 3 row) as [H3|H3].
  - destruct (py_get rack column) as [subrack|] eqn:Hsub;
      [|unfold cell in Hcell; by rewrite Hsub in Hcell].
    assert (Hsubcell : forall x, cell rack column x = py_get subrack x)
      by (intros x; unfold cell; by rewrite Hsub).
    cbn [res_bind]. unfold four_down.
    assert (Hget : forall j, (j <= 3)%nat -> exists v, py_get subrack (row - j) = Ok v).
    { intros j Hj. rewrite <- Hsubcell.
      apply (cell_total rack cols rows); [done | | lia].
      destruct Hrect as [<- _]. by eapply cell_lt. }
    destruct (Hget 1%nat ltac:(lia)) as [b Hb].
    destruct (Hget 2%nat ltac:(lia)) as [c Hc].
    destruct (Hget 3%nat ltac:(lia)) as [d Hd].
    rewrite <- Hsubcell, Hcell, Hb. cbn [res_bind].
    assert (Hfour : player = b -> player = c -> player = d ->
              forall j, (j <= 3)%nat -> cell rack column (row - 3 + j) = Ok player).
    { intros <- <- <- j Hj. rewrite Hsubcell.
      assert (j = 0 \/ j = 1 \/ j = 2 \/ j = 3)%nat as [-> | [-> | [-> | ->]]] by lia.
      - by replace (row - 3 + 0)%nat with (row - 3)%nat by lia.
      - by replace (row - 3 + 1)%nat with (row - 2)%nat by lia.
      - by replace (row - 3 + 2)%nat with (row - 1)%nat by lia.
      - replace (row - 3 + 3)%nat with row by lia. by rewrite <- Hsubcell. }
    assert (Hback : forall a, (a <= 3)%nat -> (a <= row)%nat ->
              (forall j, (j <= 3)%nat -> cell rack column (row - a + j) = Ok player) ->
              player = b /\ player = c /\ player = d).
    { intros a Ha Harow Hline.
      destruct (decide (a = 3%nat)) as [->|]; [|by destruct (Hlow a ltac:(lia) Harow)].
      pose proof (Hline 2%nat ltac:(lia)) as H1.
      pose proof (Hline 1%nat ltac:(lia)) as H2.
      pose proof (Hline 0%nat ltac:(lia)) as H3'.
      replace (row - 3 + 2)%nat with (row - 1)%nat in H1 by lia.
      replace (row - 3 + 1)%nat with (row - 2)%nat in H2 by lia.
      replace (row - 3 + 0)%nat with (row - 3)%nat in H3' by lia.
      rewrite Hsubcell in H1, H2, H3'.
      rewrite Hb in H1. rewrite Hc in H2. rewrite Hd in H3'.
      split; [congruence | split; congruence]. }
    destruct (Z.eqb_spec player b) as [Eb|Eb]; cbn [negb].
    + rewrite Hc. cbn [res_bind].
      destruct (Z.eqb_spec player c) as [Ec|Ec]; cbn [negb].
      * rewrite Hd. cbn [res_bind]. eexists. split; [done|].
        destruct (Z.eqb_spec player d) as [Ed|Ed].
        -- split; [|done]. intros _. exists 3%nat. split; [lia|]. split; [lia|].
           by apply Hfour.
        -- split; [done|]. intros (a & Ha & Harow & Hline).
           destruct (Hback a Ha Harow Hline) as (_ & _ & ?). done.
      * exists false. split; [done|]. split; [done|].
        intros (a & Ha & Harow & Hline).
        destruct (Hback a Ha Harow Hline) as (_ & ? & _). done.
    + exists false. split; [done|]. split; [done|].
      intros (a & Ha & Harow & Hline).
      destruct (Hback a Ha Harow Hline) as (? & _ & _). done.
  - exists false. split; [done|]. split; [done|].
    intros (a & Ha & Harow & Hline). exfalso. by apply (Hlow a); [lia | |].
Qed.

(** The horizontal test succeeds exactly when four cells of the player in
    the row include the cell [(column, row)]. *)
Lemma side_iff rack cols row player column c d :
  length rack = cols -> (column < cols)%nat ->
  cell rack column row = Ok player ->
  walk_west rack row player column = Ok c ->
  walk_east rack row player (cols - 1 - column) column = Ok d ->
  (3 <= d - c)%nat <->
  exists a, (a <= 3)%nat /\ (a <= column)%nat /\
    forall j, (j <= 3)%nat -> cell rack (column - a + j) row = Ok player.
Proof.
  intros Hlen Hcol Hcell Hwest Heast.
  destruct (walk_west_spec _ _ _ _ _ Hwest) as (Hc & Hcrun & Hcstop).
  destruct (walk_east_spec _ _ _ _ _ _ Heast) as (Hd & Hdrun & Hdstop).
  assert (Hrun : forall x, (c <= x <= d)%nat -> cell rack x row = Ok player).
  { intros x Hx. destruct (decide (x = column)) as [->|]; [done|].
    destruct (decide (x < column)%nat); [apply Hcrun | apply Hdrun]; lia. }
  split.
  - intros Hwide. exists (Nat.min (column - c) 3). split; [lia|]. split; [lia|].
    intros j Hj. apply Hrun. lia.
  - intros (a & Ha & Hacol & Hline).
    assert (c <= column - a)%nat.
    { destruct (decide (c <= column - a)%nat) as [|Hgt]; [done|]. exfalso.
      destruct Hcstop as [-> | Hstop]; [lia|]. apply Hstop.
      replace (c - 1)%nat with (column - a + (c - 1 - (column - a)))%nat by lia.
      apply Hline. lia. }
    assert (column - a + 3 <= d)%nat.
    { destruct (decide (column - a + 3 <= d)%nat) as [|Hgt]; [done|]. exfalso.
      assert (Hnext : cell rack (d + 1) row = Ok player).
      { replace (d + 1)%nat with (column - a + (d + 1 - (column - a)))%nat by lia.
        apply Hline. lia. }
      destruct Hdstop as [-> | Hstop]; [|done].
      eapply cell_off_right; [|exact Hnext]. lia. }
    lia.
Qed.

(** The same for the forward diagonal. *)
Lemma rising_iff rack cols rows player column row c r d s :
  rectangular rack cols rows -> (column < cols)%nat ->
  cell rack column row = Ok player ->
  walk_south_west rack player column row = Ok (c, r) ->
  walk_north_east rack player rows (cols - 1 - column) column row = Ok (d, s) ->
  (3 <= d - c)%nat <->
  exists a, (a <= 3)%nat /\ (a <= column)%nat /\ (a <= row)%nat /\
    forall j, (j <= 3)%nat -> cell rack (column - a + j) (row - a + j) = Ok player.
Proof.
  intros Hrect Hcol Hcell Hsw Hne.
  destruct (walk_south_west_spec _ _ _ _ _ _ Hsw) as (k & Hck & Hrk & Hkrun & Hkstop).
  destruct (walk_north_east_spec _ _ _ _ _ _ _ _ Hne) as (n & -> & -> & Hnrun & Hnstop).
  split.
  - intros Hwide. exists (Nat.min k 3).
    split; [lia|]. split; [lia|]. split; [lia|]. intros j Hj.
    destruct (decide (j < Nat.min k 3)%nat) as [Hlt|Hge].
    + replace (column - Nat.min k 3 + j)%nat
        with (c + (k - Nat.min k 3 + j))%nat by lia.
      replace (row - Nat.min k 3 + j)%nat
        with (r + (k - Nat.min k 3 + j))%nat by lia.
      apply Hkrun. lia.
    + destruct (decide (j = Nat.min k 3)) as [->|Hne'].
      * replace (column - Nat.min k 3 + Nat.min k 3)%nat with column by lia.
        by replace (row - Nat.min k 3 + Nat.min k 3)%nat with row by lia.
      * replace (column - Nat.min k 3 + j)%nat
          with (column + (j - Nat.min k 3))%nat by lia.
        replace (row - Nat.min k 3 + j)%nat
          with (row + (j - Nat.min k 3))%nat by lia.
        apply Hnrun. lia.
  - intros (a & Ha & Hacol & Harow & Hline).
    assert (a <= k)%nat.
    { destruct (decide (a <= k)%nat) as [|Hgt]; [done|]. exfalso.
      destruct Hkstop as [-> | [-> | Hstop]]; [lia | lia |]. apply Hstop.
      replace (c - 1)%nat with (column - a + (a - k - 1))%nat by lia.
      replace (r - 1)%nat with (row - a + (a - k - 1))%nat by lia.
      apply Hline. lia. }
    assert (3 - a <= n)%nat.
    { destruct (decide (3 - a <= n)%nat) as [|Hgt]; [done|]. exfalso.
      assert (Hnext : cell rack (column + n + 1) (row + n + 1) = Ok player).
      { replace (column + n + 1)%nat with (column - a + (a + n + 1))%nat by lia.
        replace (row + n + 1)%nat with (row - a + (a + n + 1))%nat by lia.
        apply Hline. lia. }
      destruct Hnstop as [-> | [Htop | Hstop]]; [| |done].
      - destruct Hrect as [Hlen _].
        eapply cell_off_right; [|exact Hnext]. lia.
      - eapply cell_off_top; [done | | exact Hnext]. lia. }
    lia.
Qed.

(** The same for the backward diagonal. *)
Lemma falling_iff rack cols rows player column row c r d s :
  rectangular rack cols rows -> (column < cols)%nat ->
  cell rack column row = Ok player ->
  walk_north_west rack player rows column row = Ok (c, r) ->
  walk_south_east rack player (cols - 1 - column) column row = Ok (d, s) ->
  (3 <= d - c)%nat <->
  exists a, (a <= 3)%nat /\ (a <= column)%nat /\ (3 - a <= row)%nat /\
    forall j, (j <= 3)%nat -> cell rack (column - a + j) (row + a - j) = Ok player.
Proof.
  intros Hrect Hcol Hcell Hnw Hse.
  destruct (walk_north_west_spec _ _ _ _ _ _ _ Hnw) as (k & Hck & -> & Hkrun & Hkstop).
  destruct (walk_south_east_spec _ _ _ _ _ _ _ Hse) as (n & -> & Hsn & Hnrun & Hnstop).
  split.
  - intros Hwide. exists (Nat.min k 3).
    split; [lia|]. split; [lia|]. split; [lia|]. intros j Hj.
    destruct (decide (j < Nat.min k 3)%nat) as [Hlt|Hge].
    + replace (column - Nat.min k 3 + j)%nat
        with (column - (Nat.min k 3 - j))%nat by lia.
      replace (row + Nat.min k 3 - j)%nat
        with (row + (Nat.min k 3 - j))%nat by lia.
      apply Hkrun. lia.
    + destruct (decide (j = Nat.min k 3)) as [->|Hne'].
      * replace (column - Nat.min k 3 + Nat.min k 3)%nat with column by lia.
        by replace (row + Nat.min k 3 - Nat.min k 3)%nat with row by lia.
      * replace (column - Nat.min k 3 + j)%nat
          with (column + (j - Nat.min k 3))%nat by lia.
        replace (row + Nat.min k 3 - j)%nat
          with (row - (j - Nat.min k 3))%nat by lia.
        apply Hnrun. lia.
  - intros (a & Ha & Hacol & Harow & Hline).
    assert (a <= k)%nat.
    { destruct (decide (a <= k)%nat) as [|Hgt]; [done|]. exfalso.
      assert (Hnext : cell rack (c - 1) (row + k + 1) = Ok player).
      { replace (c - 1)%nat with (column - a + (a - k - 1))%nat by lia.
        replace (row + k + 1)%nat with (row + a - (a - k - 1))%nat by lia.
        apply Hline. lia. }
      destruct Hkstop as [-> | [Htop | Hstop]]; [lia | | done].
      eapply cell_off_top; [done | | exact Hnext]. lia. }
    assert (3 - a <= n)%nat.
    { destruct (decide (3 - a <= n)%nat) as [|Hgt]; [done|]. exfalso.
      assert (Hnext : cell rack (column + n + 1) (s - 1) = Ok player).
      { replace (column + n + 1)%nat with (column - a + (a + n + 1))%nat by lia.
        replace (s - 1)%nat with (row + a - (a + n + 1))%nat by lia.
        apply Hline. lia. }
      destruct Hnstop as [-> | [-> | Hstop]]; [| lia | done].
      destruct Hrect as [Hlen _].
      eapply cell_off_right; [|exact Hnext]. lia. }
    lia.
Qed.

Lemma find_win_at_complete (rack : Rack) (cols rows column : nat) :
  rectangular rack cols rows -> (column < cols)%nat ->
  exists result,
    find_win (PyRack rack) (Some column) = Ok result /\
    ((forall r, (r < rows)%nat -> cell rack column r = Ok 0) -> result = None) /\
    (forall row player,
       top_disc rack column rows row player ->
       (is_Some result <-> four_through rack player column row)).
Proof.
  intros Hrect Hcol. unfold find_win. cbn [find_win_rec]. unfold find_win_at.
  pose proof Hrect as [Hlen Hall].
  destruct (lookup_lt_is_Some_2 rack 0) as [first Hfirst]; [lia|].
  unfold py_get at 1. rewrite Hfirst. cbn [res_bind].
  rewrite Forall_lookup in Hall. rewrite (Hall _ _ Hfirst).
  destruct (drop_row_total rack cols rows column rows Hrect Hcol) as [landed Hdrop];
    [lia|].
  rewrite Hdrop. cbn [res_bind].
  assert (Hunique : forall row player,
            top_disc rack column rows row player -> landed = Some row).
  { intros row player (Hcell & Hp & Hzero).
    pose proof (cell_rows _ _ _ _ _ _ Hrect Hcell) as Hrow.
    rewrite (drop_row_top rack column rows row player) in Hdrop by done.
    by injection Hdrop. }
  destruct landed as [row|].
  2: { exists None. split; [done|]. split; [done|].
       intros row player Htop. by specialize (Hunique _ _ Htop). }
  destruct (drop_row_spec _ _ _ _ Hdrop) as (Hrow & (player & Hcell & Hp) & Hzero).
  assert (Htop : top_disc rack column rows row player) by done.
  rewrite Hcell. cbn [res_bind].
  assert (Hsame : forall (P : Z -> Prop), P player ->
            forall row' player', top_disc rack column rows row' player' ->
              row' = row /\ P player').
  { intros P HP row' player' Htop'. pose proof (Hunique _ _ Htop') as [= <-].
    destruct Htop' as (Hcell' & _). rewrite Hcell in Hcell'.
    injection Hcell' as <-. done. }
  assert (Hnonempty :
            (forall r, (r < rows)%nat -> cell rack column r = Ok 0) -> False).
  { intros Hz. rewrite Hz in Hcell by done. congruence. }
  destruct (vertical_iff rack cols rows column row player Hrect Htop)
    as (vertical & -> & Hup).
  cbn [res_bind]. destruct vertical.
  { eexists. split; [done|]. split; [by intros ?%Hnonempty|].
    intros row' player' Htop'.
    destruct (Hsame (fun p => four_through rack p column row)) with row' player'
      as [-> Hfour]; [|done|].
    - destruct (proj1 Hup eq_refl) as (a & Ha & Harow & Hline).
      by eapply line_up.
    - split; [done | by eexists]. }
  destruct (walk_west_total rack cols rows row player column Hrect Hrow) as [c Hwest];
    [lia|].
  destruct (walk_east_total rack cols rows row player (cols - 1 - column) column
              Hrect Hrow) as [d Heast]; [lia|].
  rewrite Hlen, Hwest, Heast. cbn [res_bind].
  pose proof (side_iff rack cols row player column c d Hlen Hcol Hcell Hwest Heast)
    as Hside.
  destruct (Nat.leb_spec 3 (d - c)) as [Hwide|Hnarrow].
  { eexists. split; [done|]. split; [by intros ?%Hnonempty|].
    intros row' player' Htop'.
    destruct (Hsame (fun p => four_through rack p column row)) with row' player'
      as [-> Hfour]; [|done|].
    - destruct (proj1 Hside Hwide) as (a & Ha & Hacol & Hline).
      by eapply line_side.
    - split; [done | by eexists]. }
  destruct (walk_south_west_total rack cols rows player column row Hrect)
    as [[c1 r1] Hsw]; [lia | lia |].
  destruct (walk_north_east_total rack cols rows player (cols - 1 - column) column row
              Hrect) as [[d1 s1] Hne]; [lia|].
  rewrite Hsw, Hne. cbn [res_bind].
  pose proof (rising_iff rack cols rows player column row c1 r1 d1 s1
                Hrect Hcol Hcell Hsw Hne) as Hrising.
  destruct (Nat.leb_spec 3 (d1 - c1)) as [Hwide1|Hnarrow1].
  { eexists. split; [done|]. split; [by intros ?%Hnonempty|].
    intros row' player' Htop'.
    destruct (Hsame (fun p => four_through rack p column row)) with row' player'
      as [-> Hfour]; [|done|].
    - destruct (proj1 Hrising Hwide1) as (a & Ha & Hacol & Harow & Hline).
      by eapply line_rising.
    - split; [done | by eexists]. }
  destruct (walk_north_west_total rack cols rows player column row Hrect)
    as [[c2 r2] Hnw]; [lia|].
  destruct (walk_south_east_total rack cols rows player (cols - 1 - column) column row
              Hrect) as [[d2 s2] Hse]; [lia | lia |].
  rewrite Hnw, Hse. cbn [res_bind].
  pose proof (falling_iff rack cols rows player column row c2 r2 d2 s2
                Hrect Hcol Hcell Hnw Hse) as Hfalling.
  destruct (Nat.leb_spec 3 (d2 - c2)) as [Hwide2|Hnarrow2].
  { eexists. split; [done|]. split; [by intros ?%Hnonempty|].
    intros row' player' Htop'.
    destruct (Hsame (fun p => four_through rack p column row)) with row' player'
      as [-> Hfour]; [|done|].
    - destruct (proj1 Hfalling Hwide2) as (a & Ha & Hacol & Harow & Hline).
      by eapply line_falling.
    - split; [done | by eexists]. }
  exists None. split; [done|]. split; [done|].
  intros row' player' Htop'.
  destruct (Hsame (fun _ => True) I row' player' Htop') as [-> _].
  destruct Htop' as (Hcell' & _). rewrite Hcell in Hcell'. injection Hcell' as <-.
  split; [by intros [? ?]|]. intros Hfour. exfalso.
  destruct Hfour as [a Ha Harow Hline | a Ha Hacol Hline
                    | a Ha Hacol Harow Hline | a Ha Hacol Harow Hline].
  - assert (false = true); [|done]. apply Hup. by exists a.
  - assert (3 <= d - c)%nat; [|lia]. apply Hside. by exists a.
  - assert (3 <= d1 - c1)%nat; [|lia]. apply Hrising. by exists a.
  - assert (3 <= d2 - c2)%nat; [|lia]. apply Hfalling. by exists a.
Qed.

(** On a rectangular rack and for a column of the rack, [find_win] with the
    column given always returns; it reports no win when the column is
    empty; and otherwise it reports a win exactly when four cells of the
    owner of the column's topmost disc lie in a line (vertical, horizontal
    or diagonal) through that disc. *)
Theorem find_win_misses_no_win (rack : Rack) (cols rows column : nat) :
  rectangular rack cols rows -> (column < cols)%nat ->
  exists result,
    find_win (PyRack rack) (Some column) = Ok result /\
    ((forall r, (r < rows)%nat -> cell rack column r = Ok 0) -> result = None) /\
    (forall row player,
       top_disc rack column rows row player ->
       (is_Some result <-> four_through rack player column row)).
Proof. exact (find_win_at_complete rack cols rows column). Qed.

Lemma find_win_misses_no_win_witness :
  rectangular seven_low 7 6 /\ (3 < 7)%nat /\
  exists result,
    find_win (PyRack seven_low) (Some 3%nat) = Ok result /\
    ((forall r, (r < 6)%nat -> cell seven_low 3 r = Ok 0) -> result = None) /\
    (forall row player,
       top_disc seven_low 3 6 row player ->
       (is_Some result <-> four_through seven_low player 3 row)).
Proof.
  assert (H : (3 < 7)%nat) by lia.
  split; [exact seven_low_rectangular|]. split; [exact H|].
  exact (find_win_misses_no_win seven_low 7 6 3 seven_low_rectangular H).
Defined.

(** ** The range of the scores of the two searches *)

Lemma adjust_tight best :
  -10000000 <= best <= 10000000 -> -9999999 <= adjust best <= 9999999.
Proof.
  unfold adjust. intros H.
  destruct (Z.gtb_spec best 100000); [lia|].
  destruct (Z.ltb_spec best (-100000)); lia.
Qed.

Lemma minimax_loop_total (rec : M Z) id board :
  wf_rack board ->
  (forall row i, wf_rack (with_cell board i row id) ->
     exists v, rec (with_cell board i row id) = (Ok v, with_cell board i row id)
               /\ -10000000 <= v <= 10000000) ->
  forall cols best,
    (forall i, i ∈ cols -> (i < length board)%nat) ->
    exists best',
      minimax_loop rec id cols best board = (Ok best', board) /\
      best <= best' <= Z.max best 10000000 /\
      ((exists i, i ∈ cols /\ top_cell board i = Ok 0) -> -10000000 <= best').
Proof.
  intros Hwf Hrec cols.
  induction cols as [|i cols IH]; intros best Hcols.
  - exists best. split; [done|]. split; [lia|].
    intros (i & Hi & _). by apply elem_of_nil in Hi.
  - cbn [minimax_loop]. unfold bind at 1, read at 1.
    destruct (top_cell_total board i Hwf) as [top Etop]; [apply Hcols; left|].
    rewrite Etop.
    assert (Hrest : forall j, j ∈ cols -> (j < length board)%nat)
      by (intros j Hj; apply Hcols; by right).
    destruct (Z.eqb_spec top 0) as [->|Hne]; cbn [negb].
    + destruct (drop_undo board i id Etop)
        as (row & col & _ & _ & Hfind & Hset & Hunset).
      unfold bind at 1, read at 1. rewrite Hfind.
      unfold bind at 1. rewrite Hset.
      unfold bind at 1.
      destruct (Hrec row i) as (v & Hv & Hbound); [by apply wf_with_cell|].
      rewrite Hv. unfold bind at 1. rewrite Hunset.
      destruct (IH (Z.max (v * -1) best) Hrest) as (best' & Hrun & Hle & _).
      exists best'. split; [done|]. split; lia.
    + destruct (IH best Hrest) as (best' & Hrun & Hle & Hlegal).
      exists best'. split; [done|]. split; [done|].
      intros (j & Hj & Hjtop). apply Hlegal. exists j. split; [|done].
      apply elem_of_cons in Hj as [->|Hj]; [|done]. congruence.
Qed.

Lemma minimax_total plies id board :
  wf_rack board ->
  exists v, minimax_plies plies id board = (Ok v, board) /\
            -10000000 <= v <= 10000000 /\
            (plies <> O -> -9999999 <= v <= 9999999).
Proof.
  revert id board.
  induction plies as [|plies IH]; intros id board Hwf;
    rewrite minimax_plies_eq;
    destruct (eval_total id board Hwf) as (curr & -> & Hcurr).
  - exists curr. split; [done|]. split; [done|]. done.
  - destruct (Z.gtb_spec curr 100000); [eexists; split; [done|lia]|].
    destruct (Z.ltb_spec curr (-100000)); [eexists; split; [done|lia]|].
    destruct (is_tie_total board Hwf) as (tie & -> & Hlegal).
    destruct tie; [eexists; split; [done|lia]|].
    destruct (minimax_loop_total (minimax_plies plies (_flip_player id)) id
                board Hwf) with (cols := seq 0 (length board))
      (best := -100000000) as (best & -> & Hle & Hlow).
    + intros row i Hwf'. destruct (IH (_flip_player id) _ Hwf') as (v & Hv & Hb & _).
      by exists v.
    + intros i Hi. apply elem_of_seq in Hi. lia.
    + exists (adjust best). split; [done|].
      destruct (Hlegal eq_refl) as [i Hi].
      assert (-10000000 <= best).
      { apply Hlow. exists i. split; [|done].
        apply elem_of_seq. apply top_cell_lt in Hi. lia. }
      pose proof (adjust_tight best ltac:(lia)). lia.
Qed.

Lemma alpha_beta_tight plies id alpha beta board :
  wf_rack board ->
  exists v, alpha_beta_plies (S plies) id alpha beta board = (Ok v, board) /\
            -9999999 <= v <= 9999999.
Proof.
  intros Hwf. rewrite alpha_beta_plies_eq.
  destruct (eval_total id board Hwf) as (curr & -> & Hcurr).
  destruct (Z.gtb_spec curr 100000); [eexists; split; [done|lia]|].
  destruct (Z.ltb_spec curr (-100000)); [eexists; split; [done|lia]|].
  destruct (is_tie_total board Hwf) as (tie & -> & Hlegal).
  destruct tie; [eexists; split; [done|lia]|].
  destruct (alpha_beta_loop_total (alpha_beta_plies plies (_flip_player id)) id
              board Hwf) with (cols := seq 0 (length board))
    (best := -100000000) (alpha := alpha) (beta := beta)
    as (best & -> & Hle & Hlow).
  - intros a b row i Hwf'. by apply alpha_beta_total.
  - intros i Hi. apply elem_of_seq in Hi. lia.
  - exists (adjust best). split; [done|]. apply adjust_tight.
    destruct (Hlegal eq_refl) as [i Hi].
    assert (-10000000 <= best); [|lia].
    apply Hlow. exists i. split; [|done].
    apply elem_of_seq. apply top_cell_lt in Hi. lia.
Qed.

(** On a well-formed rack both searches return, with the board as it was,
    a score between -10000000 and 10000000, well inside the window
    [pick_move] starts from; with [depth] above 0 the score is even between
    -9999999 and 9999999. *)
Theorem search_scores_bounded (id depth alpha beta : Z) (board : Rack) :
  wf_rack board ->
  exists v w,
    _minimax id depth board = (Ok v, board) /\
    _minimax_with_alpha_beta_pruning id depth alpha beta board = (Ok w, board) /\
    -10000000 <= v <= 10000000 /\ -10000000 <= w <= 10000000 /\
    (0 < depth -> -9999999 <= v <= 9999999 /\ -9999999 <= w <= 9999999).
Proof.
  intros Hwf. unfold _minimax, _minimax_with_alpha_beta_pruning.
  destruct (minimax_total (Z.to_nat depth) id board Hwf) as (v & Hv & Hvb & Hvt).
  destruct (alpha_beta_total (Z.to_nat depth) id alpha beta board Hwf)
    as (w & Hw & Hwb).
  exists v, w. split; [done|]. split; [done|]. split; [done|]. split; [done|].
  intros Hd. split; [apply Hvt; lia|].
  destruct (Z.to_nat depth) as [|plies] eqn:E; [lia|].
  destruct (alpha_beta_tight plies id alpha beta board Hwf) as (w' & Hw' & Hwt).
  rewrite Hw in Hw'. by injection Hw' as <-.
Qed.

Lemma search_scores_bounded_witness :
  wf_rack three_low /\
  exists v w,
    _minimax 1 4 three_low = (Ok v, three_low) /\
    _minimax_with_alpha_beta_pruning 1 4 (-100000000) 100000000 three_low
    = (Ok w, three_low) /\
    -10000000 <= v <= 10000000 /\ -10000000 <= w <= 10000000 /\
    (0 < 4 -> -9999999 <= v <= 9999999 /\ -9999999 <= w <= 9999999).
Proof.
  split; [exact three_low_wf|].
  exact (search_scores_bounded 1 4 (-100000000) 100000000 three_low three_low_wf).
Defined.

(** ** One ply: pruning changes nothing *)

Lemma eval_bounds id board s :
  _eval_function id board = Ok s -> -10000000 <= s <= 10000000.
Proof.
  rewrite eval_raw_clamp. destruct (raw_score id board) as [raw|]; [|done].
  intros [= <-]. apply clamp_bounds.
Qed.

Lemma loops_agree (rec_ab : Z -> Z -> M Z) (rec : M Z) id cols :
  (forall a b board, rec_ab a b board = rec board) ->
  (forall board s board', rec board = (Ok s, board') ->
     -10000000 <= s <= 10000000) ->
  forall best alpha beta board,
    alpha < beta -> 10000000 < beta -> best <= 10000000 ->
    alpha_beta_loop rec_ab id cols best alpha beta board
    = minimax_loop rec id cols best board.
Proof.
  intros Hsame Hbound.
  induction cols as [|i cols IH]; intros best alpha beta board Hab Hbeta Hbest;
    [done|].
  cbn [alpha_beta_loop minimax_loop]. unfold bind, read.
  destruct (top_cell board i) as [top|]; [|done].
  destruct (negb (top =? 0)); [by apply IH|].
  destruct (_find_top_spot_open board i) as [row|]; [|done].
  destruct (set_cell i row id board) as [[[]|] board1]; [|done].
  rewrite Hsame.
  destruct (rec board1) as [[s|] board2] eqn:Hrec; [|done].
  pose proof (Hbound _ _ _ Hrec) as Hs.
  destruct (set_cell i row 0 board2) as [[[]|] board3]; [|done].
  match goal with
  | |- context [?x >=? beta] => destruct (Z.geb_spec x beta); [lia|]
  end.
  apply IH; lia.
Qed.

(** With at most one ply to look ahead and a window whose upper end is
    above 10000000, the pruned search does exactly what plain minimax does,
    on any board: same result, same final board. *)
Theorem alpha_beta_one_ply (id depth alpha beta : Z) (board : Rack) :
  depth <= 1 -> alpha < beta -> 10000000 < beta ->
  _minimax_with_alpha_beta_pruning id depth alpha beta board
  = _minimax id depth board.
Proof.
  intros Hdepth Hab Hbeta.
  unfold _minimax_with_alpha_beta_pruning, _minimax.
  assert (Z.to_nat depth = O \/ Z.to_nat depth = 1%nat) as [-> | ->] by lia;
    [done|].
  rewrite alpha_beta_plies_eq, minimax_plies_eq.
  destruct (_eval_function id board) as [curr|]; [|done].
  destruct (curr >? 100000); [done|]. destruct (curr <? -100000); [done|].
  destruct (_is_tie board) as [[|]|]; [done| |done].
  rewrite (loops_agree (alpha_beta_plies 0 (_flip_player id))
             (minimax_plies 0 (_flip_player id))); [done | done | | done | done | lia].
  intros b s b'. cbn [minimax_plies]. unfold bind, read, ret.
  destruct (_eval_function (_flip_player id) b) eqn:E; [|done].
  intros [= <- <-]. by eapply eval_bounds.
Qed.

Lemma alpha_beta_one_ply_witness :
  1 <= 1 /\ -100000000 < 100000000 /\ 10000000 < 100000000 /\
  _minimax_with_alpha_beta_pruning 1 1 (-100000000) 100000000 three_low
  = _minimax 1 1 three_low.
Proof.
  assert (H1 : 1 <= 1) by lia.
  assert (H2 : -100000000 < 100000000) by lia.
  assert (H3 : 10000000 < 100000000) by lia.
  split; [exact H1|]. split; [exact H2|]. split; [exact H3|].
  exact (alpha_beta_one_ply 1 1 (-100000000) 100000000 three_low H1 H2 H3).
Defined.

(** ** What [pick_move] prefers *)

Lemma pick_move_best id difficulty_level draw rack :
  wf_rack rack ->
  (exists i, top_cell rack i = Ok 0) ->
  exists c sc,
    pick_move id difficulty_level draw rack = Ok c /\
    top_cell rack c = Ok 0 /\
    recorded_score id difficulty_level rack c = Ok sc /\
    forall j, top_cell rack j = Ok 0 ->
      exists sj, recorded_score id difficulty_level rack j = Ok sj /\ sj <= sc.
Proof.
  intros Hwf [i Hi].
  unfold pick_move, pick_move_run, bind.
  rewrite (score_moves_total id difficulty_level rack Hwf)
    by (intros j Hj; apply elem_of_seq in Hj; lia).
  rewrite app_nil_l. unfold read. cbn [fst].
  set (scores := score_entry id difficulty_level rack <$> seq 0 (length rack)).
  assert (Hlookup : forall j, (j < length rack)%nat ->
            scores !! j = Some (score_entry id difficulty_level rack j)).
  { intros j Hj. unfold scores. by rewrite list_lookup_fmap, lookup_seq_lt. }
  assert (Hlen : length scores = length rack)
    by (unfold scores; by rewrite length_fmap, length_seq).
  destruct (best_of_spec scores (seq 0 (length scores)) (-100000000) [])
    as (best & cols & Hrun & _ & Hin & Hmax & Hne).
  { intros j Hj. apply elem_of_seq in Hj. lia. }
  rewrite Hrun. cbn [res_bind].
  destruct (random_choice_elem draw cols) as (c & Hchoice & Hc).
  { apply Hne. right.
    destruct (score_entry_legal id difficulty_level rack i Hwf Hi)
      as (s & Hentry & _ & Hbound).
    pose proof (top_cell_lt _ _ _ Hi) as Hlt.
    exists i, s. split; [apply elem_of_seq; lia|].
    split; [by rewrite Hlookup, Hentry | lia]. }
  exists c, best. split; [done|].
  destruct (Hin c Hc) as [[Hnil _] | [_ Hbest]]; [by apply elem_of_nil in Hnil|].
  pose proof (lookup_lt_Some _ _ _ Hbest) as Hclt.
  rewrite Hlookup in Hbest by lia. injection Hbest as Hbest.
  destruct (score_entry_some _ _ _ _ _ Hbest) as [Htop Hrec].
  split; [done|]. split; [done|].
  intros j Hj.
  destruct (score_entry_legal id difficulty_level rack j Hwf Hj)
    as (sj & Hentry & Hrecj & _).
  pose proof (top_cell_lt _ _ _ Hj) as Hlt.
  exists sj. split; [done|]. apply (Hmax j).
  - apply elem_of_seq. lia.
  - by rewrite Hlookup, Hentry.
Qed.

Lemma eval_flip_opp id rack :
  id = 1 \/ id = 2 ->
  _eval_function (_flip_player id) rack = res_map Z.opp (_eval_function id rack).
Proof.
  intros Hid. rewrite !eval_raw_clamp, raw_score_flip by done.
  destruct (raw_score id rack); simpl; [|done]. by rewrite clamp_opp.
Qed.

Lemma recorded_score_after_drop id difficulty_level rack i :
  wf_rack rack -> top_cell rack i = Ok 0 ->
  recorded_score id difficulty_level rack i
  = res_map (fun s => s * -1)
      (_minimax_with_alpha_beta_pruning (_flip_player id) (difficulty_level - 1)
         (-100000000) 100000000 (after_drop rack i id)).1.
Proof.
  intros Hwf Htop.
  destruct (recorded_score_total id difficulty_level rack i Hwf Htop)
    as (row & s & Hfind & _ & _ & Hrun & Hrec & _).
  unfold after_drop. by rewrite Hfind, Hrun, Hrec.
Qed.

(** At difficulty level 1 or below, [pick_move] for player 1 or 2 is
    greedy: on a well-formed rack with a legal column it returns a legal
    column for which the evaluator's score of the rack after the drop, for
    the player itself, is the highest among the legal columns. *)
Theorem pick_move_level_one
    (id difficulty_level : Z) (draw : nat) (rack : Rack) :
  wf_rack rack -> (exists i, top_cell rack i = Ok 0) ->
  id = 1 \/ id = 2 -> difficulty_level <= 1 ->
  exists c e,
    pick_move id difficulty_level draw rack = Ok c /\
    top_cell rack c = Ok 0 /\
    _eval_function id (after_drop rack c id) = Ok e /\
    forall j, top_cell rack j = Ok 0 ->
      exists ej, _eval_function id (after_drop rack j id) = Ok ej /\ ej <= e.
Proof.
  intros Hwf Hlegal Hid Hlevel.
  assert (Hscore : forall j s, top_cell rack j = Ok 0 ->
            recorded_score id difficulty_level rack j = Ok s ->
            _eval_function id (after_drop rack j id) = Ok s).
  { intros j s Hj. rewrite (recorded_score_after_drop _ _ _ _ Hwf Hj).
    unfold _minimax_with_alpha_beta_pruning.
    replace (Z.to_nat (difficulty_level - 1)) with O by lia.
    cbn [alpha_beta_plies]. unfold bind, read, ret.
    rewrite (eval_flip_opp id) by done.
    destruct (_eval_function id (after_drop rack j id)) as [e|]; [|done].
    simpl. intros [= <-]. f_equal. lia. }
  destruct (pick_move_best id difficulty_level draw rack Hwf Hlegal)
    as (c & sc & Hpick & Htop & Hrec & Hmax).
  exists c, sc. split; [done|]. split; [done|]. split; [by apply Hscore|].
  intros j Hj. destruct (Hmax j Hj) as (sj & Hrecj & Hle).
  exists sj. split; [by apply Hscore | done].
Qed.

Lemma pick_move_level_one_witness :
  wf_rack three_low /\ (exists i, top_cell three_low i = Ok 0) /\
  (1 = 1 \/ 1 = 2) /\ 1 <= 1 /\
  exists c e,
    pick_move 1 1 0 three_low = Ok c /\
    top_cell three_low c = Ok 0 /\
    _eval_function 1 (after_drop three_low c 1) = Ok e /\
    forall j, top_cell three_low j = Ok 0 ->
      exists ej, _eval_function 1 (after_drop three_low j 1) = Ok ej /\ ej <= e.
Proof.
  assert (Hlegal : exists i, top_cell three_low i = Ok 0)
    by (exists 0%nat; reflexivity).
  assert (Hid : 1 = 1 \/ 1 = 2) by (left; reflexivity).
  assert (Hlevel : 1 <= 1) by lia.
  split; [exact three_low_wf|]. split; [exact Hlegal|].
  split; [exact Hid|]. split; [exact Hlevel|].
  exact (pick_move_level_one 1 1 0 three_low three_low_wf Hlegal Hid Hlevel).
Defined.

Lemma eval_decided id board e :
  _eval_function id board = Ok e -> e < -100000 -> e = -10000000.
Proof.
  rewrite eval_raw_clamp. destruct (raw_score id board) as [raw|]; [|done].
  intros [= <-]. unfold clamp. repeat case_match; lia.
Qed.

(** An immediate win is never passed up: if on a well-formed rack some
    legal column leaves the opponent an evaluation below -100000, the
    column [pick_move] returns has the same recorded score as that column,
    which is the highest score there is at that level: 10000000 at level 1
    or below, 9999999 above. *)
Theorem pick_move_takes_decided_score
    (id difficulty_level : Z) (draw : nat) (rack : Rack) (c : nat) (e : Z) :
  wf_rack rack -> top_cell rack c = Ok 0 ->
  _eval_function (_flip_player id) (after_drop rack c id) = Ok e -> e < -100000 ->
  exists c',
    pick_move id difficulty_level draw rack = Ok c' /\
    top_cell rack c' = Ok 0 /\
    recorded_score id difficulty_level rack c'
    = recorded_score id difficulty_level rack c /\
    recorded_score id difficulty_level rack c
    = Ok (if difficulty_level <=? 1 then 10000000 else 9999999).
Proof.
  intros Hwf Hc Heval He.
  pose proof (eval_decided _ _ _ Heval He) as ->.
  assert (Hrec : recorded_score id difficulty_level rack c
                 = Ok (if difficulty_level <=? 1 then 10000000 else 9999999)).
  { rewrite (recorded_score_after_drop _ _ _ _ Hwf Hc).
    unfold _minimax_with_alpha_beta_pruning.
    destruct (Z.leb_spec difficulty_level 1) as [Hle|Hgt].
    - replace (Z.to_nat (difficulty_level - 1)) with O by lia.
      cbn [alpha_beta_plies]. unfold bind, read, ret. by rewrite Heval.
    - destruct (Z.to_nat (difficulty_level - 1)) as [|plies] eqn:E; [lia|].
      rewrite alpha_beta_plies_eq, Heval. done. }
  assert (Hupper : forall j s, top_cell rack j = Ok 0 ->
            recorded_score id difficulty_level rack j = Ok s ->
            s <= (if difficulty_level <=? 1 then 10000000 else 9999999)).
  { intros j s Hj.
    destruct (recorded_score_total id difficulty_level rack j Hwf Hj)
      as (row & v & Hfind & _ & _ & Hrun & Hrecj & Hbound).
    rewrite Hrecj. intros [= <-].
    destruct (Z.leb_spec difficulty_level 1) as [Hle|Hgt]; [lia|].
    unfold _minimax_with_alpha_beta_pruning in Hrun.
    destruct (Z.to_nat (difficulty_level - 1)) as [|plies] eqn:E; [lia|].
    destruct (alpha_beta_tight plies (_flip_player id) (-100000000) 100000000
                (with_cell rack j row id)) as (v' & Hv' & Htight);
      [by apply wf_with_cell|].
    rewrite Hrun in Hv'. injection Hv' as <-. lia. }
  destruct (pick_move_best id difficulty_level draw rack Hwf)
    as (c' & sc & Hpick & Htop & Hrec' & Hmax); [by exists c|].
  exists c'. split; [done|]. split; [done|]. split; [|done].
  rewrite Hrec', Hrec. f_equal.
  destruct (Hmax c Hc) as (s & Hs & Hle). rewrite Hrec in Hs. injection Hs as <-.
  pose proof (Hupper c' sc Htop Hrec'). lia.
Qed.

Lemma three_in_a_row_wf : wf_rack three_in_a_row.
Proof. exists 7%nat, 6%nat. split; [lia|]. split; [done | repeat constructor]. Qed.

Lemma pick_move_takes_decided_score_witness :
  wf_rack three_in_a_row /\ top_cell three_in_a_row 3 = Ok 0 /\
  _eval_function (_flip_player 1) (after_drop three_in_a_row 3 1) = Ok (-10000000) /\
  -10000000 < -100000 /\
  exists c',
    pick_move 1 2 0 three_in_a_row = Ok c' /\
    top_cell three_in_a_row c' = Ok 0 /\
    recorded_score 1 2 three_in_a_row c' = recorded_score 1 2 three_in_a_row 3 /\
    recorded_score 1 2 three_in_a_row 3
    = Ok (if 2 <=? 1 then 10000000 else 9999999).
Proof.
  assert (Htop : top_cell three_in_a_row 3 = Ok 0) by reflexivity.
  assert (Heval : _eval_function (_flip_player 1) (after_drop three_in_a_row 3 1)
                  = Ok (-10000000)) by (vm_compute; reflexivity).
  assert (Hlow : -10000000 < -100000) by lia.
  split; [exact three_in_a_row_wf|]. split; [exact Htop|].
  split; [exact Heval|]. split; [exact Hlow|].
  exact (pick_move_takes_decided_score 1 2 0 three_in_a_row 3 (-10000000)
           three_in_a_row_wf Htop Heval Hlow).
Defined.

(** ** A turn of the computer, a turn of the human *)

Lemma place_disc_lowest (rack : Rack) player_number c col row :
  rack !! c = Some col -> lowest_open col row ->
  place_disc player_number (Z.of_nat c) rack
  = (Ok tt, <[c := <[row := player_number]> col]> rack).
Proof.
  intros Hcol Hlow. unfold place_disc. rewrite py_resolve_nat.
  pose proof (lookup_lt_Some _ _ _ Hcol) as Hlt.
  rewrite decide_True by done. unfold py_get. rewrite Hcol. cbn [res_bind].
  rewrite (climb_found col 0 row Hlow). simpl.
  destruct Hlow as [Hrow _]. pose proof (lookup_lt_Some _ _ _ Hrow).
  unfold set_cell. by rewrite Hcol, decide_True.
Qed.

Lemma place_disc_legal (rack : Rack) player_number c :
  top_cell rack c = Ok 0 ->
  exists rack', place_disc player_number (Z.of_nat c) rack = (Ok tt, rack').
Proof.
  intros Htop.
  destruct (drop_undo rack c player_number Htop) as (row & col & Hcol & Hlow & _).
  eexists. by eapply place_disc_lowest.
Qed.

Lemma do_computer_turn_legal
    (id difficulty_level : Z) (draw : nat) (rack : Rack) :
  wf_rack rack -> (exists i, top_cell rack i = Ok 0) ->
  exists move rack',
    do_computer_turn id difficulty_level draw rack = Ok move /\
    pick_move id difficulty_level draw rack = Ok move /\
    top_cell rack move = Ok 0 /\
    place_disc id (Z.of_nat move) rack = (Ok tt, rack').
Proof.
  intros Hwf Hlegal.
  destruct (pick_move_best id difficulty_level draw rack Hwf Hlegal)
    as (c & sc & Hpick & Htop & _).
  destruct (place_disc_legal rack id c Htop) as [rack' Hplace].
  exists c, rack'. split; [|done].
  unfold do_computer_turn. rewrite Hpick. cbn [res_bind].
  pose proof (top_cell_lt _ _ _ Htop) as Hlt.
  destruct (Z.leb_spec 0 (Z.of_nat c)); [|lia].
  destruct (Z.ltb_spec (Z.of_nat c) (Z.of_nat (length rack))); [|lia].
  cbn [andb negb]. by rewrite Htop.
Qed.

(** On a well-formed rack with a legal column, neither assertion of
    [do_computer_turn] fails: it returns the column [pick_move] chose, and
    [place_disc] then succeeds in that column. *)
Theorem do_computer_turn_passes
    (id difficulty_level : Z) (draw : nat) (rack : Rack) :
  wf_rack rack -> (exists i, top_cell rack i = Ok 0) ->
  exists move rack',
    do_computer_turn id difficulty_level draw rack = Ok move /\
    pick_move id difficulty_level draw rack = Ok move /\
    top_cell rack move = Ok 0 /\
    place_disc id (Z.of_nat move) rack = (Ok tt, rack').
Proof. exact (do_computer_turn_legal id difficulty_level draw rack). Qed.

Lemma do_computer_turn_passes_witness :
  wf_rack three_low /\ (exists i, top_cell three_low i = Ok 0) /\
  exists move rack',
    do_computer_turn 2 4 0 three_low = Ok move /\
    pick_move 2 4 0 three_low = Ok move /\
    top_cell three_low move = Ok 0 /\
    place_disc 2 (Z.of_nat move) three_low = (Ok tt, rack').
Proof.
  assert (Hlegal : exists i, top_cell three_low i = Ok 0)
    by (exists 0%nat; reflexivity).
  split; [exact three_low_wf|]. split; [exact Hlegal|].
  exact (do_computer_turn_passes 2 4 0 three_low three_low_wf Hlegal).
Defined.

Lemma human_column_ok_true rack column :
  human_column_ok rack column = Ok true ->
  0 <= column < Z.of_nat (length rack) /\ top_cell rack (Z.to_nat column) = Ok 0.
Proof.
  unfold human_column_ok.
  destruct (Z.geb_spec column 0); cbn [negb]; [|done].
  destruct (Z.ltb_spec column (Z.of_nat (length rack))); cbn [negb]; [|done].
  destruct (top_cell rack (Z.to_nat column)) as [top|]; [|done]. simpl.
  destruct (Z.eqb_spec top 0) as [->|]; [|done]. intros _. split; [lia | done].
Qed.

(** A column [do_human_turn] returns was typed on one of the lines, lies in
    the rack and has an unowned top cell, so that [place_disc] succeeds
    there; a line that is not a number, or the number 0, is never accepted;
    and on a well-formed rack [do_human_turn] raises nothing. *)
Theorem do_human_turn_accepts_legal (rack : Rack) (lines : list (option Z)) :
  (forall column,
     do_human_turn rack lines = Ok (Some column) ->
     (exists user_input, user_input ∈ lines /\ column = human_column user_input) /\
     0 <= column < Z.of_nat (length rack) /\
     top_cell rack (Z.to_nat column) = Ok 0 /\
     forall player_number,
       exists rack', place_disc player_number column rack = (Ok tt, rack')) /\
  human_column_ok rack (human_column None) = Ok false /\
  human_column_ok rack (human_column (Some 0)) = Ok false /\
  (wf_rack rack -> exists answer, do_human_turn rack lines = Ok answer).
Proof.
  split; [|split; [done|split; [done|]]].
  - induction lines as [|user_input rest IH]; intros column; [done|].
    cbn [do_human_turn].
    destruct (human_column_ok rack (human_column user_input)) as [[|]|] eqn:Hok;
      cbn [res_bind]; [| |done].
    + intros [= <-]. destruct (human_column_ok_true _ _ Hok) as [Hrange Htop].
      split; [exists user_input; split; [by left | done]|].
      split; [done|]. split; [done|]. intros p.
      destruct (place_disc_legal rack p _ Htop) as [rack' Hplace].
      exists rack'. by rewrite Z2Nat.id in Hplace by lia.
    + intros H. destruct (IH column H) as ((u & Hu & Hcol) & Hrest).
      split; [exists u; split; [by right | done] | done].
  - intros Hwf. induction lines as [|user_input rest IH]; [by eexists|].
    cbn [do_human_turn]. unfold human_column_ok.
    destruct (human_column user_input >=? 0) eqn:Hge; cbn [negb];
      [|cbn [res_bind]; done].
    destruct (Z.ltb_spec (human_column user_input) (Z.of_nat (length rack)));
      cbn [negb]; [|cbn [res_bind]; done].
    destruct (top_cell_total rack (Z.to_nat (human_column user_input)) Hwf)
      as [top ->]; [lia|].
    cbn [res_bind]. destruct (top =? 0); [by eexists | done].
Qed.

Lemma do_human_turn_accepts_legal_witness :
  do_human_turn three_low [None; Some 0; Some 9; Some 3] = Ok (Some 2) /\
  0 <= 2 < Z.of_nat (length three_low) /\
  top_cell three_low (Z.to_nat 2) = Ok 0.
Proof.
  assert (H : do_human_turn three_low [None; Some 0; Some 9; Some 3] = Ok (Some 2))
    by reflexivity.
  split; [exact H|].
  destruct (proj1 (do_human_turn_accepts_legal three_low
                     [None; Some 0; Some 9; Some 3]) 2 H) as (_ & Hrange & Htop & _).
  split; [exact Hrange | exact Htop].
Defined.

(** ** Whose turn it is *)

(** For the players 1 and 2, [_flip_player] of the computer player, the
    [3 - current_player] of the text game and [_swap_player] of the window
    give the same other player, and flipping twice gives the player back. *)
Theorem flip_player_swaps (id : Z) :
  id = 1 \/ id = 2 ->
  _flip_player id = _swap_player id /\
  (_flip_player id = 1 \/ _flip_player id = 2) /\
  _flip_player id <> id /\
  _flip_player (_flip_player id) = id.
Proof. unfold _flip_player, _swap_player. intros [-> | ->]; simpl; lia. Qed.

Lemma flip_player_swaps_witness :
  (2 = 1 \/ 2 = 2) /\ _flip_player 2 = _swap_player 2 /\ _flip_player (_flip_player 2) = 2.
Proof.
  assert (H : 2 = 1 \/ 2 = 2) by (right; reflexivity).
  split; [exact H|].
  destruct (flip_player_swaps 2 H) as (Hswap & _ & _ & Hback).
  split; [exact Hswap | exact Hback].
Defined.

(** ** Colours *)

(** For a colour with channels between 0 and 255, [_darken] and [_lighten]
    give channels between 0 and 255 again, the dark ones no higher and the
    light ones no lower than the colour's, and leave alpha as it is. *)
Theorem darken_lighten_in_range (red green blue alpha : Z) :
  0 <= red <= 255 -> 0 <= green <= 255 -> 0 <= blue <= 255 ->
  let '(dr, dg, db, da) := _darken (red, green, blue, alpha) in
  let '(lr, lg, lb, la) := _lighten (red, green, blue, alpha) in
  (0 <= dr <= red /\ 0 <= dg <= green /\ 0 <= db <= blue /\ da = alpha) /\
  (red <= lr <= 255 /\ green <= lg <= 255 /\ blue <= lb <= 255 /\ la = alpha).
Proof.
  intros Hr Hg Hb. cbn [_darken _lighten].
  pose proof (Z.div_mod red 2). pose proof (Z.mod_pos_bound red 2).
  pose proof (Z.div_mod green 2). pose proof (Z.mod_pos_bound green 2).
  pose proof (Z.div_mod blue 2). pose proof (Z.mod_pos_bound blue 2).
  pose proof (Z.div_mod (red + 255) 2). pose proof (Z.mod_pos_bound (red + 255) 2).
  pose proof (Z.div_mod (green + 255) 2).
  pose proof (Z.mod_pos_bound (green + 255) 2).
  pose proof (Z.div_mod (blue + 255) 2).
  pose proof (Z.mod_pos_bound (blue + 255) 2).
  lia.
Qed.

Lemma darken_lighten_in_range_witness :
  0 <= 255 <= 255 /\ 0 <= 0 <= 255 /\
  let '(dr, dg, db, da) := _darken (255, 0, 0, 255) in
  let '(lr, lg, lb, la) := _lighten (255, 0, 0, 255) in
  (0 <= dr <= 255 /\ 0 <= dg <= 0 /\ 0 <= db <= 0 /\ da = 255) /\
  (255 <= lr <= 255 /\ 0 <= lg <= 255 /\ 0 <= lb <= 255 /\ la = 255).
Proof.
  assert (H1 : 0 <= 255 <= 255) by lia. assert (H2 : 0 <= 0 <= 255) by lia.
  split; [exact H1|]. split; [exact H2|].
  exact (darken_lighten_in_range 255 0 0 255 H1 H2 H2).
Defined.

(** ** The text game ends *)

Lemma exists_legal_move_total rack :
  wf_rack rack ->
  exists legal, exists_legal_move rack = Ok legal /\
    (legal = true -> exists i, top_cell rack i = Ok 0).
Proof.
  intros (cols & rows & Hrows & _ & Hall). clear cols.
  induction Hall as [|col rest Hcol Hall IH]; [by exists false|].
  cbn [exists_legal_move]. unfold py_last.
  destruct (last col) as [v|] eqn:Hlast.
  - simpl. destruct (Z.eqb_spec v 0) as [->|Hv].
    + exists true. split; [done|]. intros _. exists 0%nat.
      unfold top_cell, py_get, py_last. simpl. by rewrite Hlast.
    + destruct IH as (legal & Hlegal & Hsome). exists legal. split; [done|].
      intros Ht. destruct (Hsome Ht) as [i Hi]. by exists (S i).
  - apply last_None in Hlast. subst col. simpl in Hcol. lia.
Qed.

Lemma game_loop_ends (choose : nat -> Z -> Rack -> res nat) :
  (forall n p rack, wf_rack rack -> (exists i, top_cell rack i = Ok 0) ->
     exists c, choose n p rack = Ok c /\ top_cell rack c = Ok 0) ->
  forall turns n current_player rack cols rows,
    rectangular rack cols rows -> (0 < rows)%nat -> Forall settled rack ->
    current_player = 1 \/ current_player = 2 ->
    (unowned rack < turns)%nat ->
    exists result rack',
      game_loop turns choose n current_player rack = (Ok result, rack') /\
      rectangular rack' cols rows /\
      match result with
      | Wins p w =>
          (p = 1 \/ p = 2) /\
          exists column row,
            top_disc rack' column rows row p /\ four_through rack' p column row
      | TieGame => exists_legal_move rack' = Ok false
      | StillPlaying => False
      end.
Proof.
  intros Hchoose turns.
  induction turns as [|turns IH];
    intros n current rack cols rows Hrect Hrows Hset Hcur Hturns; [lia|].
  assert (Hwf : wf_rack rack) by (by exists cols, rows).
  cbn [game_loop]. unfold bind, read, ret.
  destruct (exists_legal_move_total rack Hwf) as (legal & Hlegal & Hsome).
  rewrite Hlegal. destruct legal; cbn [negb].
  2: { exists TieGame, rack. by split. }
  destruct (Hchoose n (3 - current) rack Hwf (Hsome eq_refl)) as (c & Hc & Htop).
  rewrite Hc.
  destruct (place_disc_legal rack (3 - current) c Htop) as [rack1 Hplace].
  rewrite Hplace.
  assert (Hp : 3 - current <> 0) by lia.
  destruct (place_disc_top _ _ _ _ cols rows Hrect Hset Hp Hplace)
    as (c0 & row & Hres & _ & Htopdisc & _).
  pose proof (top_cell_lt _ _ _ Htop) as Hclt.
  rewrite py_resolve_nat, decide_True in Hres by done. injection Hres as <-.
  destruct (place_disc_inv _ _ _ _ Hplace)
    as (c1 & row1 & col & Hres1 & Hcol & Hlow & Hrack1).
  rewrite py_resolve_nat, decide_True in Hres1 by done. injection Hres1 as <-.
  assert (Hrect1 : rectangular rack1 cols rows).
  { subst rack1. destruct Hrect as [Hlen Hall]. split; [by rewrite length_insert|].
    apply Forall_insert; [done|]. rewrite length_insert.
    rewrite Forall_lookup in Hall. by apply (Hall c). }
  assert (Hset1 : Forall settled rack1).
  { subst rack1. apply Forall_insert; [done|]. apply settled_insert; [|done].
    rewrite Forall_lookup in Hset. by apply (Hset c). }
  assert (Hunowned : unowned rack = S (unowned rack1)).
  { subst rack1. apply unowned_insert; [done | by destruct Hlow | done]. }
  assert (Hccols : (c < cols)%nat) by (destruct Hrect as [<- _]; done).
  destruct (find_win_at_complete rack1 cols rows c Hrect1 Hccols)
    as (win & Hwin & _ & Hiff).
  rewrite Hwin. destruct win as [w|].
  - exists (Wins (3 - current) w), rack1. split; [done|]. split; [done|].
    split; [lia|]. exists c, row. split; [done|].
    apply (Hiff row (3 - current) Htopdisc). by eexists.
  - apply IH; [done | done | done | lia | lia].
Qed.

(** The text game always comes to an end.  Whatever [random.randrange]
    picks for the first player, and whoever plays, as long as each turn
    yields a legal column whenever there is one (as [do_human_turn] and
    [do_computer_turn] do): within 42 moves on the 7-by-6 rack the loop
    ends, without any exception, either with a winner, who is player 1 or
    2 and has four cells in a line through the topmost disc of a column,
    or as a tie on a rack without legal move. *)
Theorem text_game_ends
    (choose : nat -> Z -> Rack -> res nat) (first : Z) (turns : nat) :
  first = 1 \/ first = 2 ->
  (forall n p rack, wf_rack rack -> (exists i, top_cell rack i = Ok 0) ->
     exists c, choose n p rack = Ok c /\ top_cell rack c = Ok 0) ->
  (42 < turns)%nat ->
  exists result rack',
    play_game_in_ascii turns choose first = (Ok result, rack') /\
    rectangular rack' 7 6 /\
    match result with
    | Wins p w =>
        (p = 1 \/ p = 2) /\
        exists column row,
          top_disc rack' column 6 row p /\ four_through rack' p column row
    | TieGame => exists_legal_move rack' = Ok false
    | StillPlaying => False
    end.
Proof.
  intros Hfirst Hchoose Hturns. unfold play_game_in_ascii.
  apply (game_loop_ends choose Hchoose); [apply make_rack_rectangular | lia | | done |].
  - apply Forall_replicate. intros r r' _ _ Hr'. rewrite length_replicate in Hr'.
    by apply lookup_replicate_2.
  - change (unowned (make_rack 7 6)) with 42%nat. lia.
Qed.

Lemma text_game_ends_witness :
  (1 = 1 \/ 1 = 2) /\ (42 < 43)%nat /\
  exists result rack',
    play_game_in_ascii 43 (fun _ p rack => do_computer_turn p 1 0 rack) 1
    = (Ok result, rack') /\
    rectangular rack' 7 6 /\
    match result with
    | Wins p w =>
        (p = 1 \/ p = 2) /\
        exists column row,
          top_disc rack' column 6 row p /\ four_through rack' p column row
    | TieGame => exists_legal_move rack' = Ok false
    | StillPlaying => False
    end.
Proof.
  assert (H1 : 1 = 1 \/ 1 = 2) by (left; reflexivity).
  assert (H2 : (42 < 43)%nat) by lia.
  split; [exact H1|]. split; [exact H2|].
  apply (text_game_ends (fun _ p rack => do_computer_turn p 1 0 rack) 1 43 H1);
    [|exact H2].
  intros n p rack Hwf Hlegal.
  destruct (do_computer_turn_legal p 1 0 rack Hwf Hlegal)
    as (move & _ & Hmove & _ & Htop & _).
  by exists move.
Defined.

(** ** [pick_move] on a rack without legal column *)

Lemma best_of_none (scores : list (option Z)) idxs best cols0 :
  (forall i, i ∈ idxs -> scores !! i = Some None) ->
  best_of scores idxs best cols0 = Ok cols0.
Proof.
  induction idxs as [|i idxs IH]; intros Hnone; [done|].
  cbn [best_of]. unfold py_get. rewrite Hnone by left. cbn [res_bind].
  apply IH. intros j Hj. apply Hnone. by right.
Qed.

(** On a well-formed rack in which no column is legal, [pick_move] raises
    [IndexError] (from [random.choice] on the empty list of best columns),
    with its working copy equal to the rack. *)
Theorem pick_move_full_rack (id difficulty_level : Z) (draw : nat) (rack : Rack) :
  wf_rack rack ->
  (forall i, top_cell rack i <> Ok 0) ->
  pick_move_run id difficulty_level draw rack = (Raise IndexError, rack).
Proof.
  intros Hwf Hfull. unfold pick_move_run, bind.
  rewrite (score_moves_total id difficulty_level rack Hwf)
    by (intros j Hj; apply elem_of_seq in Hj; lia).
  rewrite app_nil_l. unfold read.
  rewrite best_of_none; [done|].
  intros i Hi. apply elem_of_seq in Hi.
  rewrite length_fmap, length_seq in Hi.
  rewrite list_lookup_fmap, lookup_seq_lt by lia. simpl. f_equal.
  unfold score_entry.
  destruct (top_cell_total rack i Hwf) as [v Hv]; [lia|]. rewrite Hv.
  destruct (Z.eqb_spec v 0) as [->|]; [|done]. by destruct (Hfull i).
Qed.

Lemma full_rack_wf : wf_rack full_rack.
Proof. exists 7%nat, 6%nat. split; [lia|]. split; [done | repeat constructor]. Qed.

Lemma pick_move_full_rack_witness :
  wf_rack full_rack /\ (forall i, top_cell full_rack i <> Ok 0) /\
  pick_move_run 1 4 0 full_rack = (Raise IndexError, full_rack).
Proof.
  assert (Hfull : forall i, top_cell full_rack i <> Ok 0).
  { intros i. do 7 (destruct i as [|i]; [discriminate|]). discriminate. }
  split; [exact full_rack_wf|]. split; [exact Hfull|].
  exact (pick_move_full_rack 1 4 0 full_rack full_rack_wf Hfull).
Defined.
